(** * sjw: a bridge between systemd (over D-Bus) and a WAMP router

    Shallow embedding of [sjw/app.py].  The coroutines of the source are
    run sequentially: every [await] is a call to the outside world (the
    D-Bus connection, the WAMP component) whose answer is supplied by an
    environment, and every such call is appended to a trace together with
    the way it ended.  Exceptions are values of an error monad; the
    mutations a coroutine made before raising stay in the state, as in
    Python. *)

From stdpp Require Import gmap strings list fin_maps.

(** ** Python dictionaries that are iterated

    [units_name] and [units_path] are walked with [.items()], and a Python
    dictionary yields its entries in insertion order: they are kept as
    association lists.  [dset] is [d[k] = v]: an existing key keeps its
    position, a new key goes to the end. *)

Module PyDict.

Definition dict (V : Type) : Type := list (string * V).

Fixpoint dget {V} (k : string) (d : dict V) : option V :=
  match d with
  | [] => None
  | (k', v) :: d' => if String.eqb k k' then Some v else dget k d'
  end.

Fixpoint dset {V} (k : string) (v : V) (d : dict V) : dict V :=
  match d with
  | [] => [(k, v)]
  | (k', v') :: d' =>
      if String.eqb k k' then (k, v) :: d' else (k', v') :: dset k v d'
  end.

Definition dkeys {V} (d : dict V) : list string := d.*1.

Definition items {V} (d : dict V) : list (string * V) := d.

End PyDict.
Import PyDict.

(** ** Values exchanged with the bus *)

(** What txdbus hands back for the D-Bus types in use: strings and object
    paths, booleans, integers and arrays or structs of those. *)
#[warnings="-register-all"]
Inductive Value : Type :=
| VStr (s : string)
| VBool (b : bool)
| VInt (z : Z)
| VList (l : list Value).

(** The [a{sv}] dictionaries of [GetAll] and [PropertiesChanged]. *)
Abbreviation PropertyMap := (gmap string Value).

(** [class Unit(NamedTuple)] *)
Record Unit : Type := mkUnit {
  name : string;
  description : Value;
  active : Value;
  sub : Value;
  enabled : Value
}.

(** The function objects [unit_changed] made by [subscribe_props_units].
    Such a closure does not hold a unit key: its free variable [unit_key]
    is the cell of the enclosing call's frame, named here by its index in
    the store of cells. *)
Inductive Closure : Type :=
| UnitChanged (cell : nat).

(** ** Exceptions *)

(** [KeyError] is what a failed subscript [d[k]] raises (the spec's
    [UnknownUnitKey]); [RemoteError] is a failure reported by the bus or the
    router (the spec's [BusCallFailed]); [AttributeError] comes from using
    [self.connection] or [self.systemd_dbus] while it is still [None], and
    [NameError] from reading a closure cell that was never assigned. *)
Inductive Exn : Type :=
| KeyError (key : string)
| AttributeError (attr : string)
| NameError (var : string)
| RemoteError (err : string).

Inductive Result (A : Type) : Type :=
| Ok (a : A)
| Raise (e : Exn).
Arguments Ok {A} a.
Arguments Raise {A} e.

Definition is_ok {A} (r : Result A) : bool :=
  match r with Ok _ => true | Raise _ => false end.

(** ** Calls to the outside world *)

Inductive Event : Type :=
| EConnect (busAddress : string)
| EGetRemoteObject (busName : string) (objectPath : Value)
| ECallRemote (objectPath : Value) (member : string) (args : list Value)
| ENotifyOnSignal (objectPath : Value) (signalName : string) (callback : Closure)
| ERegister (session : nat) (procedure : string)
| EPublish (session : nat) (topic : string) (payload : PropertyMap)
| EWampStart.

(** How a call ended. *)
Inductive Status : Type :=
| Done
| Failed (err : string).

Definition Entry : Type := Event * Status.

Definition done (e : Entry) : Prop := e.2 = Done.

(** An answer of the environment: a value, or the name of an error. *)
Inductive Reply (A : Type) : Type :=
| Returned (a : A)
| Raised (err : string).
Arguments Returned {A} a.
Arguments Raised {A} err.

Definition status_of {A} (r : Reply A) : Status :=
  match r with Returned _ => Done | Raised err => Failed err end.

(** The environment: the session bus with systemd behind it and the WAMP
    router, as a state machine over its own state [W].  Nothing is assumed
    about its answers. *)
Record Env (W : Type) : Type := mkEnv {
  env_connect : string → W → Reply unit * W;
  env_getRemoteObject : string → Value → W → Reply unit * W;
  env_callRemote : Value → string → list Value → W → Reply Value * W;
  env_GetAll : Value → W → Reply PropertyMap * W;
  env_register : nat → string → W → Reply unit * W;
  env_publish : nat → string → PropertyMap → W → Reply unit * W;
  env_wamp_start : W → Reply Value * W
}.
Arguments env_connect {W} _ _ _.
Arguments env_getRemoteObject {W} _ _ _ _.
Arguments env_callRemote {W} _ _ _ _ _.
Arguments env_GetAll {W} _ _ _.
Arguments env_register {W} _ _ _ _.
Arguments env_publish {W} _ _ _ _ _.
Arguments env_wamp_start {W} _ _.

(** ** The state: [App], its [WAMPApplication], and the world *)

Record State (W : Type) : Type := mkState {
  world : W;
  trace : list Entry;
  (* WAMPApplication *)
  wamp_session : option nat;
  (* App *)
  connection : option string;
  systemd_dbus : option Value;
  units : gmap string Unit;
  units_name : dict string;
  units_path : dict Value;
  properties : gmap string PropertyMap;
  (* the [unit_key] cells of the frames of [subscribe_props_units] *)
  cells : list (option string)
}.
Arguments mkState {W}.
Arguments world {W} _.
Arguments trace {W} _.
Arguments wamp_session {W} _.
Arguments connection {W} _.
Arguments systemd_dbus {W} _.
Arguments units {W} _.
Arguments units_name {W} _.
Arguments units_path {W} _.
Arguments properties {W} _.
Arguments cells {W} _.

Section Setters.
Context {W : Type}.
Implicit Type st : State W.

Definition set_world (w : W) st : State W :=
  mkState w (trace st) (wamp_session st) (connection st) (systemd_dbus st)
          (units st) (units_name st) (units_path st) (properties st) (cells st).
Definition set_trace (t : list Entry) st : State W :=
  mkState (world st) t (wamp_session st) (connection st) (systemd_dbus st)
          (units st) (units_name st) (units_path st) (properties st) (cells st).
Definition set_wamp_session (s : option nat) st : State W :=
  mkState (world st) (trace st) s (connection st) (systemd_dbus st)
          (units st) (units_name st) (units_path st) (properties st) (cells st).
Definition set_connection (c : option string) st : State W :=
  mkState (world st) (trace st) (wamp_session st) c (systemd_dbus st)
          (units st) (units_name st) (units_path st) (properties st) (cells st).
Definition set_systemd_dbus (o : option Value) st : State W :=
  mkState (world st) (trace st) (wamp_session st) (connection st) o
          (units st) (units_name st) (units_path st) (properties st) (cells st).
Definition set_units (u : gmap string Unit) st : State W :=
  mkState (world st) (trace st) (wamp_session st) (connection st) (systemd_dbus st)
          u (units_name st) (units_path st) (properties st) (cells st).
Definition set_units_path (p : dict Value) st : State W :=
  mkState (world st) (trace st) (wamp_session st) (connection st) (systemd_dbus st)
          (units st) (units_name st) p (properties st) (cells st).
Definition set_properties (p : gmap string PropertyMap) st : State W :=
  mkState (world st) (trace st) (wamp_session st) (connection st) (systemd_dbus st)
          (units st) (units_name st) (units_path st) p (cells st).
Definition set_cells (c : list (option string)) st : State W :=
  mkState (world st) (trace st) (wamp_session st) (connection st) (systemd_dbus st)
          (units st) (units_name st) (units_path st) (properties st) c.
End Setters.

(** ** The monad of coroutines *)

Definition M (W A : Type) : Type := State W → Result A * State W.

Definition ret {W A} (a : A) : M W A := λ st, (Ok a, st).

Definition raise {W A} (e : Exn) : M W A := λ st, (Raise e, st).

Definition bind {W A B} (m : M W A) (f : A → M W B) : M W B :=
  λ st, match m st with
        | (Ok a, st') => f a st'
        | (Raise e, st') => (Raise e, st')
        end.

Notation "'let*' x := m 'in' k" := (bind m (λ x, k))
  (at level 10, x name, m at level 100, k at level 200).
Notation "m ;;; k" := (bind m (λ _, k))
  (at level 100, k at level 200, right associativity).

(** [for x in l: body(x)] *)
Fixpoint for_each {W A} (l : list A) (body : A → M W unit) : M W unit :=
  match l with
  | [] => ret tt
  | x :: l' => body x ;;; for_each l' body
  end.

(** [d[k]] on a dictionary: the value or [KeyError]. *)
Definition subscript {W A} (k : string) (o : option A) : M W A :=
  match o with Some a => ret a | None => raise (KeyError k) end.

(** [self.attr.method]: [AttributeError] while the attribute is [None]. *)
Definition attr {W A} (a : string) (o : option A) : M W A :=
  match o with Some x => ret x | None => raise (AttributeError a) end.

(** One awaited call: ask the environment, log the call with its status,
    return or raise. *)
Definition perform {W A} (ev : Event) (ask : W → Reply A * W) : M W A :=
  λ st,
    let (r, w') := ask (world st) in
    let st' := set_trace (trace st ++ [(ev, status_of r)]) (set_world w' st) in
    match r with
    | Returned a => (Ok a, st')
    | Raised err => (Raise (RemoteError err), st')
    end.

(** ** The program *)

Definition busName : string := "org.freedesktop.systemd1".
Definition systemd_path : Value := VStr "/org/freedesktop/systemd1".

Section Bridge.
Context {W : Type}.
Variable env : Env W.

Local Abbreviation M := (M W).

(** *** Bus primitives *)

(** [client.connect(reactor, busAddress)] *)
Definition connect (busAddress : string) : M unit :=
  perform (EConnect busAddress) (env_connect env busAddress).

(** [self.connection.getRemoteObject(busName, objectPath)]: the callee is
    evaluated before its arguments, so [objectPath] is a computation.  The
    proxy that comes back is known by its object path. *)
Definition getRemoteObject (bus : string) (objectPath : M Value) : M Value :=
  λ st,
    (let* _ := attr "getRemoteObject" (connection st) in
     let* p := objectPath in
     perform (EGetRemoteObject bus p) (env_getRemoteObject env bus p);;;
     ret p) st.

(** [obj.callRemote(member, *args)] *)
Definition callRemote (obj : Value) (member : string) (args : list Value)
  : M Value :=
  perform (ECallRemote obj member args) (env_callRemote env obj member args).

(** [self.systemd_dbus.callRemote(member, *args)] *)
Definition systemd_call (member : string) (args : list Value) : M Value :=
  λ st,
    (let* obj := attr "callRemote" (systemd_dbus st) in
     callRemote obj member args) st.

(** [unit_dbus.callRemote('GetAll', '')] *)
Definition GetAll (obj : Value) : M PropertyMap :=
  perform (ECallRemote obj "GetAll" [VStr ""]) (env_GetAll env obj).

(** [unit_dbus.notifyOnSignal(signalName, callback)]: not awaited. *)
Definition notifyOnSignal (obj : Value) (signalName : string) (cb : Closure)
  : M unit :=
  λ st, (Ok tt,
         set_trace (trace st ++ [(ENotifyOnSignal obj signalName cb, Done)]) st).

(** *** WAMPApplication *)

(** [session.register(endpoint, procedure)] *)
Definition register (session : nat) (procedure : string) : M unit :=
  perform (ERegister session procedure) (env_register env session procedure).

(** [initialize], the handler of [join]: the session is kept, then the six
    procedures are registered on it. *)
Definition initialize (session : nat) : M unit :=
  (λ st, (Ok tt, set_wamp_session (Some session) st));;;
  register session "sjw.list_units";;;
  register session "sjw.query";;;
  register session "sjw.start";;;
  register session "sjw.stop";;;
  register session "sjw.enable";;;
  register session "sjw.disable".

(** [uninitialize], the handler of [leave]. *)

Definition uninitialize : M unit :=
  λ st, (Ok tt, set_wamp_session None st).

(** A session object counts as true; [publish] is not awaited, what is
    logged is how the call itself ended. *)
Definition on_unit_changed (unit_ : string) (props : PropertyMap) : M unit :=
  λ st,
    match wamp_session st with
    | None => (Ok tt, st)
    | Some session =>
        perform (EPublish session ("sjw.unit." +:+ unit_) props)
                (env_publish env session ("sjw.unit." +:+ unit_) props) st
    end.

(** [WAMPApplication.start] *)
Definition wamp_start : M Value :=
  perform EWampStart (env_wamp_start env).

(** *** App *)

(** [props[k]] *)
Definition prop (props : PropertyMap) (k : string) : M Value :=
  subscript k (props !! k).

Definition in_filter (filter_keys : option (list string)) (key : string)
  : bool :=
  match filter_keys with
  | None | Some [] => true
  | Some keys => bool_decide (key ∈ keys)
  end.

(** One turn of the loop of [refresh_units], for a key that passes the
    filter. *)
Definition refresh_unit (key unit_name : string) : M unit :=
  let* path := systemd_call "LoadUnit" [VStr unit_name] in
  (λ st, (Ok tt, set_units_path (dset key path (units_path st)) st));;;
  let* unit_dbus :=
    getRemoteObject busName (λ st, subscript key (dget key (units_path st)) st) in
  let* props := GetAll unit_dbus in
  (λ st, (Ok tt, set_properties (<[key := props]> (properties st)) st));;;
  let* d := prop props "Description" in
  let* a := prop props "ActiveState" in
  let* s := prop props "SubState" in
  let* e := prop props "UnitFileState" in
  λ st, (Ok tt, set_units (<[key := mkUnit unit_name d a s e]> (units st)) st).

Definition refresh_units (filter_keys : option (list string)) : M unit :=
  λ st,
    for_each (items (units_name st))
      (λ '(key, unit_name),
         if in_filter filter_keys key then refresh_unit key unit_name
         else ret tt) st.

(** The body of the closure [unit_changed], given what its cell holds. *)
Definition unit_changed (unit_key : string)
    (interface : string) (changed : PropertyMap) (invalidated : list string)
  : M unit :=
  (λ st, (Ok tt,
          set_properties
            (<[unit_key := changed ∪ default ∅ (properties st !! unit_key)]>
               (properties st)) st));;;
  on_unit_changed unit_key changed.

(** Calling a closure: [unit_key] is read from the cell at the time of the
    call. *)
Definition call (cb : Closure)
    (interface : string) (changed : PropertyMap) (invalidated : list string)
  : M unit :=
  match cb with
  | UnitChanged cell =>
      λ st,
        match cells st !! cell with
        | Some (Some unit_key) =>
            unit_changed unit_key interface changed invalidated st
        | _ => (Raise (NameError "unit_key"), st)
        end
  end.

(** One turn of the loop of [subscribe_props_units]: the loop variable
    [unit_key] is assigned in the frame's cell, and the closure made in
    this turn refers to that cell. *)
Definition subscribe_unit (cell : nat) (unit_key : string) (unit_path : Value)
  : M unit :=
  (λ st, (Ok tt, set_cells (<[cell := Some unit_key]> (cells st)) st));;;
  let* unit_dbus := getRemoteObject busName (ret unit_path) in
  notifyOnSignal unit_dbus "PropertiesChanged" (UnitChanged cell).

Definition subscribe_props_units : M unit :=
  λ st,
    let cell := length (cells st) in
    for_each (items (units_path st))
      (λ '(unit_key, unit_path), subscribe_unit cell unit_key unit_path)
      (set_cells (cells st ++ [None]) st).

(** One turn of the loop of [refresh_unit_properties]. *)
Definition refresh_properties (unit_key : string) : M unit :=
  let* unit_dbus :=
    getRemoteObject busName
      (λ st, subscript unit_key (dget unit_key (units_path st)) st) in
  let* props := GetAll unit_dbus in
  λ st, (Ok tt, set_properties (<[unit_key := props]> (properties st)) st).

Definition refresh_unit_properties (unit_keys : option (list string))
  : M unit :=
  λ st,
    let unit_keys :=
      match unit_keys with
      | None | Some [] => dkeys (units_path st)
      | Some keys => keys
      end in
    for_each unit_keys refresh_properties st.

(** [to_dict] of [list_units] *)
Definition to_dict (unit_ : Unit) : PropertyMap :=
  <["Name" := VStr (name unit_)]>
    (<["Description" := description unit_]>
       (<["ActiveState" := active unit_]>
          (<["SubState" := sub unit_]>
             (<["UnitFileState" := enabled unit_]> ∅)))).

Definition list_units : M (gmap string PropertyMap) :=
  refresh_units None;;;
  λ st, (Ok (to_dict <$> units st), st).

(** The dictionary comprehension of [query]. *)
Fixpoint select (unit_keys : list string) (props : gmap string PropertyMap)
  : gmap string PropertyMap :=
  match unit_keys with
  | [] => ∅
  | k :: ks =>
      match props !! k with
      | Some p => <[k := p]> (select ks props)
      | None => select ks props
      end
  end.

Definition query (unit_keys : list string) : M (gmap string PropertyMap) :=
  λ st,
    let unit_keys :=
      match unit_keys with [] => dkeys (units_path st) | _ => unit_keys end in
    (refresh_unit_properties (Some unit_keys);;;
     λ st, (Ok (select unit_keys (properties st)), st)) st.

Definition start (unit_key : string) : M Value :=
  let* unit_name := (λ st, subscript unit_key (dget unit_key (units_name st)) st) in
  let* result := systemd_call "StartUnit" [VStr unit_name; VStr "replace"] in
  ret result.

Definition stop (unit_key : string) : M Value :=
  let* unit_name := (λ st, subscript unit_key (dget unit_key (units_name st)) st) in
  let* result := systemd_call "StopUnit" [VStr unit_name; VStr "replace"] in
  ret result.

Definition enable (unit_key : string) : M Value :=
  let* unit_name := (λ st, subscript unit_key (dget unit_key (units_name st)) st) in
  let* result :=
    systemd_call "EnableUnitFiles"
      [VList [VStr unit_name]; VBool false; VBool true] in
  systemd_call "Reload" [];;;
  ret result.

Definition disable (unit_key : string) : M Value :=
  let* unit_name := (λ st, subscript unit_key (dget unit_key (units_name st)) st) in
  let* result :=
    systemd_call "DisableUnitFiles" [VList [VStr unit_name]; VBool false] in
  systemd_call "Reload" [];;;
  ret result.

Definition main_loop : M unit :=
  connect "session";;;
  (λ st, (Ok tt, set_connection (Some "session") st));;;
  let* obj := getRemoteObject busName (ret systemd_path) in
  (λ st, (Ok tt, set_systemd_dbus (Some obj) st));;;
  systemd_call "Subscribe" [];;;
  refresh_units None;;;
  refresh_unit_properties None;;;
  subscribe_props_units;;;
  let* result := wamp_start in
  ret tt.

End Bridge.

(** ** A concrete world for examples

    [App.__init__] on a configuration, and an environment in which every
    call succeeds: [LoadUnit] answers an object path built from the unit
    name and [GetAll] a property map with the four fields [Unit] reads. *)

Definition init (config_units : dict string) : State unit :=
  {| world := tt; trace := []; wamp_session := None; connection := None;
     systemd_dbus := None; units := ∅; units_name := config_units;
     units_path := []; properties := ∅; cells := [] |}.

Definition demo_props : PropertyMap :=
  <["Description" := VStr "A unit"]>
    (<["ActiveState" := VStr "inactive"]>
       (<["SubState" := VStr "dead"]>
          (<["UnitFileState" := VStr "disabled"]> ∅))).

Definition demo_env : Env unit :=
  {| env_connect := λ _ w, (Returned tt, w);
     env_getRemoteObject := λ _ _ w, (Returned tt, w);
     env_callRemote := λ _ member args w,
       (match args with
        | VStr unit_name :: _ => Returned (VStr ("/unit/" +:+ unit_name))
        | _ => Returned (VList [])
        end, w);
     env_GetAll := λ _ w, (Returned demo_props, w);
   env_register := λ _ _ w, (Returned tt, w);
     env_publish := λ _ _ _ w, (Returned tt, w);
     env_wamp_start := λ w, (Returned (VStr "closed"), w) |}.

Definition demo_config : dict string :=
  [("web", "nginx.service"); ("db", "postgresql.service")].

(** The state after the bus part of start-up, with a WAMP session joined. *)
Definition demo_started : State unit :=
  {| world := tt; trace := []; wamp_session := Some 7;
     connection := Some "session"; systemd_dbus := Some systemd_path;
     units := ∅; units_name := demo_config;
     units_path := [("web", VStr "/unit/nginx.service");
                    ("db", VStr "/unit/postgresql.service")];
     properties := <["web" := demo_props]> (<["db" := demo_props]> ∅);
     cells := [] |}.

Definition demo_delta : PropertyMap := {["ActiveState" := VStr "active"]}.

(** The publications in a trace, oldest first: topic and payload. *)
Definition published (t : list Entry) : list (string * PropertyMap) :=
  omap (λ e : Entry,
          match e.1 with
          | EPublish _ topic payload => Some (topic, payload)
          | _ => None
          end) t.

(** The state mirror that the remote operations read. *)
Definition mirror {W} (st : State W)
  : gmap string Unit * gmap string PropertyMap * dict Value :=
  (units st, properties st, units_path st).

(** * Properties *)

Section Monad_facts.
Context {W : Type}.

Lemma bind_Ok {A B} (m : M W A) (f : A → M W B) st a st1 :
  m st = (Ok a, st1) → bind m f st = f a st1.
Proof. intros H. unfold bind. by rewrite H. Qed.

Lemma bind_Raise {A B} (m : M W A) (f : A → M W B) st e st1 :
  m st = (Raise e, st1) → bind m f st = (Raise e, st1).
Proof. intros H. unfold bind. by rewrite H. Qed.

Lemma bind_inv_Ok {A B} (m : M W A) (f : A → M W B) st b st2 :
  bind m f st = (Ok b, st2) →
  ∃ a st1, m st = (Ok a, st1) ∧ f a st1 = (Ok b, st2).
Proof.
  unfold bind. destruct (m st) as [[a|e] st1]; [eauto | discriminate].
Qed.

Lemma published_app t1 t2 : published (t1 ++ t2) = published t1 ++ published t2.
Proof. unfold published. apply omap_app. Qed.
End Monad_facts.

Section Notifier.
Context {W : Type}.
Variable env : Env W.

(** C2. Gating of [on_unit_changed]: while no session is kept it returns
    normally and leaves the whole state, hence the trace, as it was (no
    publication); with a session kept it adds exactly one publication, on
    the topic ["sjw.unit." + k], whose payload is [d] itself. *)
Theorem on_unit_changed_gating (k : string) (d : PropertyMap) (st : State W) :
  (wamp_session st = None →
     on_unit_changed env k d st = (Ok tt, st)) ∧
  (is_Some (wamp_session st) →
     published (trace (on_unit_changed env k d st).2)
     = published (trace st) ++ [("sjw.unit." +:+ k, d)]).
Proof.
  unfold on_unit_changed. split.
  - by intros ->.
  - intros [s ->]. unfold perform.
    destruct (env_publish env s _ d (world st)) as [r w']; simpl.
    by destruct r; simpl; rewrite published_app.
Qed.
End Notifier.

(** C2, on the running example: detached, then attached to session 7. *)
Lemma on_unit_changed_gating_witness :
  on_unit_changed demo_env "web" demo_delta (init demo_config)
    = (Ok tt, init demo_config) ∧
  published (trace (on_unit_changed demo_env "web" demo_delta demo_started).2)
    = [("sjw.unit.web", demo_delta)].
Proof.
  split.
  - apply (on_unit_changed_gating demo_env "web" demo_delta (init demo_config)).
    reflexivity.
  - apply (on_unit_changed_gating demo_env "web" demo_delta demo_started).
    simpl. eauto.
Defined.

Section Lifecycle.
Context {W : Type}.
Variable env : Env W.

(** A call on the manager object, spelled out: one entry is added to the
    trace, the world moves on, and the reply comes back as it is (a value is
    returned, an error is raised as [RemoteError]). *)
Definition issues (st : State W) (obj : Value) (member : string)
    (args : list Value) (r : Result Value * State W) : Prop :=
  ∃ reply w',
    env_callRemote env obj member args (world st) = (reply, w') ∧
    trace r.2 = trace st ++ [(ECallRemote obj member args, status_of reply)] ∧
    world r.2 = w' ∧
    r.1 = match reply with
          | Returned v => Ok v
          | Raised err => Raise (RemoteError err)
          end.

Lemma systemd_call_issues st obj member args :
  systemd_dbus st = Some obj →
  issues st obj member args (systemd_call env member args st).
Proof.
  intros Hobj. unfold systemd_call, bind, attr, callRemote, perform.
  rewrite Hobj. simpl.
  destruct (env_callRemote env obj member args (world st)) as [reply w'] eqn:E.
  exists reply, w'. by destruct reply.
Qed.

(** C5. [start] and [stop] on a key that [units_name] does not have raise
    [KeyError] for that key and leave the state, trace included, untouched;
    on a key it maps to [n] they make the single call [StartUnit] (resp.
    [StopUnit]) with [n] and ["replace"] on the manager and hand back its
    reply as it is, an error of the bus being raised to the caller. *)
Theorem start_stop_resolve (k : string) (st : State W) :
  (dget k (units_name st) = None →
     start env k st = (Raise (KeyError k), st) ∧
     stop env k st = (Raise (KeyError k), st)) ∧
  (∀ n obj,
     dget k (units_name st) = Some n → systemd_dbus st = Some obj →
     issues st obj "StartUnit" [VStr n; VStr "replace"] (start env k st) ∧
     issues st obj "StopUnit" [VStr n; VStr "replace"] (stop env k st)).
Proof.
  split.
  - intros Hk. unfold start, stop, bind, subscript, raise. by rewrite Hk.
  - intros n obj Hk Hobj.
    pose proof (systemd_call_issues st obj "StartUnit"
                  [VStr n; VStr "replace"] Hobj) as (r1 & w1 & E1 & T1 & W1 & R1).
    pose proof (systemd_call_issues st obj "StopUnit"
                  [VStr n; VStr "replace"] Hobj) as (r2 & w2 & E2 & T2 & W2 & R2).
    split; [exists r1, w1 | exists r2, w2];
      (split; [done|]); unfold start, stop, bind, subscript, ret;
      rewrite Hk; simpl.
    + destruct (systemd_call env "StartUnit" _ st) as [[v|e] st']; simpl in *;
        by rewrite T1, W1, R1.
    + destruct (systemd_call env "StopUnit" _ st) as [[v|e] st']; simpl in *;
        by rewrite T2, W2, R2.
Qed.

(** What [enable] and [disable] have in common: the file call [member] with
    [args], then [Reload]. *)
Definition then_reloads (st : State W) (obj : Value) (member : string)
    (args : list Value) (r : Result Value * State W) : Prop :=
  ∀ v w1,
    env_callRemote env obj member args (world st) = (Returned v, w1) →
    ∃ reply w2,
      env_callRemote env obj "Reload" [] w1 = (reply, w2) ∧
      trace r.2 = trace st ++ [(ECallRemote obj member args, Done);
                               (ECallRemote obj "Reload" [], status_of reply)] ∧
      r.1 = match reply with
            | Returned _ => Ok v
            | Raised err => Raise (RemoteError err)
            end.

Lemma file_call_then_reload st obj member args :
  systemd_dbus st = Some obj →
  then_reloads st obj member args
    ((let* result := systemd_call env member args in
      systemd_call env "Reload" [];;; ret result) st).
Proof.
  intros Hobj v w1 E1.
  unfold bind, systemd_call, attr, callRemote, perform, ret.
  rewrite Hobj. cbn. rewrite E1. cbn. rewrite Hobj. cbn.
  destruct (env_callRemote env obj "Reload" [] w1) as [reply w2] eqn:E2.
  exists reply, w2. split; [done|].
  destruct reply; simpl; by rewrite <- app_assoc.
Qed.

(** C6. On a key that [units_name] maps to [n], [enable] calls
    [EnableUnitFiles([n], False, True)] and [disable] calls
    [DisableUnitFiles([n], False)]; whatever value [v] that call returns,
    the next call is [Reload], nothing else is called, and when [Reload]
    returns the operation returns [v], not the reply of [Reload]. *)
Theorem enable_disable_reload (k n : string) (obj : Value) (st : State W) :
  dget k (units_name st) = Some n →
  systemd_dbus st = Some obj →
  then_reloads st obj "EnableUnitFiles"
    [VList [VStr n]; VBool false; VBool true] (enable env k st) ∧
  then_reloads st obj "DisableUnitFiles"
    [VList [VStr n]; VBool false] (disable env k st).
Proof.
  intros Hk Hobj.
  split; [unfold enable | unfold disable];
    rewrite (bind_Ok _ _ st n st) by (unfold subscript; by rewrite Hk);
    by apply file_call_then_reload.
Qed.

Lemma perform_mirror {A} ev (ask : W → Reply A * W) st :
  mirror (perform ev ask st).2 = mirror st.
Proof. unfold perform. destruct (ask (world st)) as [[a|e] w']; done. Qed.

Lemma systemd_call_mirror member args st :
  mirror (systemd_call env member args st).2 = mirror st.
Proof.
  unfold systemd_call, bind, attr, raise, ret, callRemote.
  destruct (systemd_dbus st); simpl; [apply perform_mirror | done].
Qed.

Lemma resolve_then_mirror (k : string) (f : string → M W Value) st :
  (∀ n, mirror (f n st).2 = mirror st) →
  mirror ((let* unit_name :=
             (λ st, subscript k (dget k (units_name st)) st) in
           f unit_name) st).2 = mirror st.
Proof.
  intros Hf. unfold bind, subscript, ret, raise.
  destruct (dget k (units_name st)); simpl; [apply Hf | done].
Qed.

Lemma call_ret_mirror member args st :
  mirror ((let* result := systemd_call env member args in ret result) st).2
  = mirror st.
Proof.
  unfold bind, ret.
  pose proof (systemd_call_mirror member args st) as H.
  by destruct (systemd_call env member args st) as [[v|e] st'].
Qed.

Lemma call_reload_mirror member args st :
  mirror ((let* result := systemd_call env member args in
           systemd_call env "Reload" [];;; ret result) st).2
  = mirror st.
Proof.
  unfold bind, ret.
  pose proof (systemd_call_mirror member args st) as H.
  destruct (systemd_call env member args st) as [[v|e] st']; [|done].
  pose proof (systemd_call_mirror "Reload" [] st') as H'.
  destruct (systemd_call env "Reload" [] st') as [[v'|e'] st'']; simpl in *;
    congruence.
Qed.

(** C10. [start], [stop], [enable] and [disable] leave [units],
    [properties] and [units_path] as they found them, for every key
    (in [units_name] or not) and however the bus answers. *)
Theorem lifecycle_preserves_mirror (k : string) (st : State W) :
  mirror (start env k st).2 = mirror st ∧
  mirror (stop env k st).2 = mirror st ∧
  mirror (enable env k st).2 = mirror st ∧
  mirror (disable env k st).2 = mirror st.
Proof.
  repeat split; apply resolve_then_mirror; intros n;
    first [apply call_ret_mirror | apply call_reload_mirror].
Qed.
End Lifecycle.

(** C5, on the running example: ["missing"] is not configured, ["web"] is. *)
Lemma start_stop_resolve_witness :
  (start demo_env "missing" demo_started = (Raise (KeyError "missing"), demo_started) ∧
   stop demo_env "missing" demo_started = (Raise (KeyError "missing"), demo_started)) ∧
  (issues demo_env demo_started systemd_path "StartUnit"
     [VStr "nginx.service"; VStr "replace"] (start demo_env "web" demo_started) ∧
   issues demo_env demo_started systemd_path "StopUnit"
     [VStr "nginx.service"; VStr "replace"] (stop demo_env "web" demo_started)).
Proof.
  split.
  - apply (start_stop_resolve demo_env "missing" demo_started). reflexivity.
  - apply (start_stop_resolve demo_env "web" demo_started); reflexivity.
Defined.

(** C6, on the running example, where the file calls answer an empty list. *)
Lemma enable_disable_reload_witness :
  (∃ reply w2,
     env_callRemote demo_env systemd_path "Reload" [] tt = (reply, w2) ∧
     trace (enable demo_env "web" demo_started).2
     = trace demo_started ++
       [(ECallRemote systemd_path "EnableUnitFiles"
           [VList [VStr "nginx.service"]; VBool false; VBool true], Done);
        (ECallRemote systemd_path "Reload" [], status_of reply)] ∧
     (enable demo_env "web" demo_started).1
     = match reply with
       | Returned _ => Ok (VList [])
       | Raised err => Raise (RemoteError err)
       end) ∧
  (∃ reply w2,
     env_callRemote demo_env systemd_path "Reload" [] tt = (reply, w2) ∧
     trace (disable demo_env "web" demo_started).2
     = trace demo_started ++
       [(ECallRemote systemd_path "DisableUnitFiles"
           [VList [VStr "nginx.service"]; VBool false], Done);
        (ECallRemote systemd_path "Reload" [], status_of reply)] ∧
     (disable demo_env "web" demo_started).1
     = match reply with
       | Returned _ => Ok (VList [])
       | Raised err => Raise (RemoteError err)
       end).
Proof.
  destruct (enable_disable_reload demo_env "web" "nginx.service" systemd_path
              demo_started eq_refl eq_refl) as [He Hd].
  split; [apply (He (VList []) tt eq_refl) | apply (Hd (VList []) tt eq_refl)].
Defined.

Section Signals.
Context {W : Type}.
Variable env : Env W.

Lemma on_unit_changed_mirror k d (st : State W) :
  mirror (on_unit_changed env k d st).2 = mirror st.
Proof.
  unfold on_unit_changed. destruct (wamp_session st); [|done].
  apply perform_mirror.
Qed.

(** What [unit_changed] does to the state mirror, whatever the notifier
    does afterwards. *)
Lemma unit_changed_mirror k iface d inv (st : State W) :
  mirror (unit_changed env k iface d inv st).2
  = (units st,
     <[k := d ∪ default ∅ (properties st !! k)]> (properties st),
     units_path st).
Proof.
  unfold unit_changed, bind.
  by rewrite on_unit_changed_mirror.
Qed.

(** [unit_changed] ends the way the notifier ends. *)
Lemma unit_changed_result k iface d inv (st : State W) :
  (unit_changed env k iface d inv st).1
  = (on_unit_changed env k d
       (set_properties
          (<[k := d ∪ default ∅ (properties st !! k)]> (properties st)) st)).1.
Proof. reflexivity. Qed.

(** C8. When a property map [old] is stored under [k], [unit_changed] on [k]
    with delta [d] stores under [k] a map that has the value of [d] at every
    property [d] names and the value of [old] at every other property; the
    maps of the other keys are not touched. *)
Theorem unit_changed_merges (k iface : string) (d old : PropertyMap)
    (inv : list string) (st : State W) :
  properties st !! k = Some old →
  ∃ new,
    properties (unit_changed env k iface d inv st).2 !! k = Some new ∧
    (∀ p, new !! p = match d !! p with
                     | Some v => Some v
                     | None => old !! p
                     end) ∧
    (∀ k', k' ≠ k →
       properties (unit_changed env k iface d inv st).2 !! k'
       = properties st !! k').
Proof.
  intros Hold.
  pose proof (unit_changed_mirror k iface d inv st) as Hm.
  unfold mirror in Hm. injection Hm as _ Hp _. rewrite Hp, Hold. simpl.
  exists (d ∪ old). split; [apply lookup_insert_eq|]. split.
  - intros p. rewrite lookup_union. destruct (d !! p), (old !! p); done.
  - intros k' Hne. by rewrite lookup_insert_ne.
Qed.

(** [setdefault]: on a key with nothing stored, [unit_changed] makes the
    entry, which then holds the delta, and goes on to the notifier. *)
Lemma unit_changed_setdefault (k iface : string) (d : PropertyMap)
    (inv : list string) (st : State W) :
  properties st !! k = None →
  unit_changed env k iface d inv st
  = on_unit_changed env k d (set_properties (<[k := d]> (properties st)) st).
Proof.
  intros Hnone. unfold unit_changed, bind. rewrite Hnone. simpl.
  by rewrite (right_id_L ∅ (∪) d).
Qed.
End Signals.

(** C8, on the running example: ["web"] becomes active. *)
Lemma unit_changed_merges_witness :
  ∃ new,
    properties (unit_changed demo_env "web" "org.freedesktop.systemd1.Unit"
                  demo_delta [] demo_started).2 !! "web" = Some new ∧
    (∀ p, new !! p = match demo_delta !! p with
                     | Some v => Some v
                     | None => demo_props !! p
                     end) ∧
    (∀ k', k' ≠ "web" →
       properties (unit_changed demo_env "web" "org.freedesktop.systemd1.Unit"
                     demo_delta [] demo_started).2 !! k'
       = properties demo_started !! k').
Proof.
  apply (unit_changed_merges demo_env "web" "org.freedesktop.systemd1.Unit"
           demo_delta demo_props [] demo_started).
  reflexivity.
Defined.

Section Queries.
Context {W : Type}.
Variable env : Env W.

(** C3, as the code has it.  [query(k)] for a key [k] that [units_path]
    does not have never reaches the bus nor the comprehension: the
    subscript [self.units_path[k]] in [refresh_unit_properties] raises
    [KeyError] for [k] (or, before start-up has connected,
    [self.connection] is still [None]), and the state is left as it
    was. *)
Theorem query_unknown_key_raises (k : string) (st : State W) :
  dget k (units_path st) = None →
  query env [k] st
  = (Raise (match connection st with
            | Some _ => KeyError k
            | None => AttributeError "getRemoteObject"
            end), st).
Proof.
  intros Hk.
  unfold query, refresh_unit_properties, bind, for_each, refresh_properties,
    getRemoteObject, bind, attr, subscript, raise, ret.
  destruct (connection st); simpl; by rewrite ?Hk.
Qed.
End Queries.

(** C3, on the running example: the boundary case of the spec. *)
Lemma query_unknown_key_raises_witness :
  query demo_env ["nonexistent-key"] demo_started
  = (Raise (KeyError "nonexistent-key"), demo_started).
Proof.
  apply (query_unknown_key_raises demo_env "nonexistent-key" demo_started).
  reflexivity.
Defined.

Section Population.
Context {W : Type}.
Variable env : Env W.

Lemma dget_elem_of {V} (k : string) (v : V) (d : dict V) :
  dget k d = Some v → (k, v) ∈ d.
Proof.
  induction d as [|[k' v'] d IH]; simpl; [done|].
  destruct (String.eqb_spec k k') as [->|Hne].
  - intros [= ->]. apply list_elem_of_here.
  - intros H. apply list_elem_of_further. by apply IH.
Qed.

(** A computation that leaves the projection [proj] of the state alone,
    however it ends. *)
Definition preserves {A B} (proj : State W → B) (m : M W A) : Prop :=
  ∀ st, proj (m st).2 = proj st.

Lemma preserves_bind {A B C} (proj : State W → C) (m : M W A) (f : A → M W B) :
  preserves proj m → (∀ a, preserves proj (f a)) → preserves proj (bind m f).
Proof.
  intros Hm Hf st. unfold bind. specialize (Hm st).
  destruct (m st) as [[a|e] st1]; simpl in *; [|done].
  by rewrite Hf.
Qed.

Lemma preserves_perform {A C} (proj : State W → C) ev (ask : W → Reply A * W) :
  (∀ w t st, proj (set_trace t (set_world w st)) = proj st) →
  preserves proj (perform ev ask).
Proof.
  intros H st. unfold perform.
  destruct (ask (world st)) as [[a|e] w']; simpl; apply H.
Qed.

Lemma preserves_subscript {A C} (proj : State W → C) k (o : option A) :
  preserves proj (subscript k o).
Proof. intros st. by destruct o. Qed.

Lemma preserves_attr {A C} (proj : State W → C) a (o : option A) :
  preserves proj (attr a o).
Proof. intros st. by destruct o. Qed.

Lemma preserves_ret {A C} (proj : State W → C) (a : A) : preserves proj (ret a).
Proof. done. Qed.

Lemma systemd_call_units member args :
  preserves units (systemd_call env member args).
Proof.
  intros st. unfold systemd_call.
  apply preserves_bind; [apply preserves_attr|]. intros obj.
  by apply preserves_perform.
Qed.

Lemma getRemoteObject_units bus objectPath :
  preserves units objectPath →
  preserves units (getRemoteObject env bus objectPath).
Proof.
  intros Hp st. unfold getRemoteObject.
  apply preserves_bind; [apply preserves_attr|]. intros _.
  apply preserves_bind; [done|]. intros p.
  apply preserves_bind; [by apply preserves_perform|]. intros _.
  apply preserves_ret.
Qed.

Lemma preserved {A B} (proj : State W → B) (m : M W A) st r st' :
  preserves proj m → m st = (r, st') → proj st' = proj st.
Proof. intros H E. specialize (H st). by rewrite E in H. Qed.

(** A successful [refresh_unit] stores a [Unit] named after the catalog
    entry under its key and touches no other key of [units]. *)
Lemma refresh_unit_Ok key unit_name (st st' : State W) :
  refresh_unit env key unit_name st = (Ok tt, st') →
  ∃ d a s e, units st' = <[key := mkUnit unit_name d a s e]> (units st).
Proof.
  unfold refresh_unit. intros H.
  apply bind_inv_Ok in H as (path & s1 & H1 & H).
  apply (preserved units) in H1; [|apply systemd_call_units].
  apply bind_inv_Ok in H as ([] & s2 & [= <-] & H).
  apply bind_inv_Ok in H as (unit_dbus & s3 & H3 & H).
  apply (preserved units) in H3;
    [|apply getRemoteObject_units; intros ?; apply preserves_subscript].
  apply bind_inv_Ok in H as (props & s4 & H4 & H).
  apply (preserved units) in H4; [|by apply preserves_perform].
  apply bind_inv_Ok in H as ([] & s5 & [= <-] & H).
  apply bind_inv_Ok in H as (d & s6 & H6 & H).
  apply (preserved units) in H6; [|apply preserves_subscript].
  apply bind_inv_Ok in H as (a & s7 & H7 & H).
  apply (preserved units) in H7; [|apply preserves_subscript].
  apply bind_inv_Ok in H as (s & s8 & H8 & H).
  apply (preserved units) in H8; [|apply preserves_subscript].
  apply bind_inv_Ok in H as (e & s9 & H9 & H).
  apply (preserved units) in H9; [|apply preserves_subscript].
  injection H as <-. exists d, a, s, e. simpl in *. congruence.
Qed.

Lemma refresh_loop_units (l : list (string * string)) (st st' : State W) :
  for_each l (λ '(key, unit_name),
                if in_filter None key then refresh_unit env key unit_name
                else ret tt) st = (Ok tt, st') →
  (∀ k, k ∉ l.*1 → units st' !! k = units st !! k) ∧
  (NoDup l.*1 →
   ∀ k n, (k, n) ∈ l → ∃ u, units st' !! k = Some u ∧ name u = n).
Proof.
  revert st. induction l as [|[key un] l IH]; intros st H; simpl in H.
  - injection H as <-. split; [done|]. intros _ k n Hin.
    by apply elem_of_nil in Hin.
  - apply bind_inv_Ok in H as ([] & st1 & H1 & H2).
    apply refresh_unit_Ok in H1 as (d & a & s & e & Hu).
    destruct (IH _ H2) as [Hframe Hnames]. split.
    + intros k Hk. rewrite fmap_cons, not_elem_of_cons in Hk.
      destruct Hk as [Hne Hk]. simpl in Hne.
      rewrite (Hframe k Hk), Hu. by rewrite lookup_insert_ne.
    + intros Hnd k n Hin. rewrite fmap_cons in Hnd.
      apply NoDup_cons in Hnd as [Hfresh Hnd]. simpl in Hfresh.
      apply elem_of_cons in Hin. destruct Hin as [[= -> ->]|Hin].
      * rewrite (Hframe key Hfresh), Hu, lookup_insert_eq. eauto.
      * by apply (Hnames Hnd).
Qed.

(** C7. When the keys of [units_name] are distinct (it is a dictionary)
    and [refresh_units()] returns, every key [k] that [units_name] maps to
    [n] has a [Unit] in [units] whose [name] is [n]. *)
Theorem refresh_units_names (st st' : State W) :
  NoDup (dkeys (units_name st)) →
  refresh_units env None st = (Ok tt, st') →
  ∀ k n, dget k (units_name st) = Some n →
         ∃ u, units st' !! k = Some u ∧ name u = n.
Proof.
  intros Hnd Hrun k n Hk. unfold refresh_units in Hrun.
  destruct (refresh_loop_units _ _ _ Hrun) as [_ Hnames].
  apply (Hnames Hnd). by apply dget_elem_of.
Qed.
End Population.

(** The running example once [main_loop] has connected to the bus. *)
Definition demo_connected : State unit :=
  set_systemd_dbus (Some systemd_path)
    (set_connection (Some "session") (init demo_config)).

(** C7, on the running example. *)
Lemma refresh_units_names_witness :
  ∃ u, units (refresh_units demo_env None demo_connected).2 !! "web" = Some u ∧
       name u = "nginx.service".
Proof.
  apply (refresh_units_names demo_env demo_connected
           (refresh_units demo_env None demo_connected).2).
  - compute_done.
  - vm_compute. reflexivity.
  - reflexivity.
Defined.

(** ** Start-up: the order of the calls *)

(** The calls of the four stages of [main_loop].  Object proxies are fetched
    in the first three. *)
Definition setup_call (e : Entry) : Prop :=
  match e.1 with
  | EConnect _ | EGetRemoteObject _ _ => True
  | ECallRemote _ member _ => member = "Subscribe"
  | _ => False
  end.




Section Traces.
Context {W : Type}.
Variable env : Env W.

(** [emits S m]: whatever the state and the answers, [m] only appends
    calls of kind [S] to the trace, and when it returns every one of them
    has completed. *)
Definition emits {A} (S : Entry → Prop) (m : M W A) : Prop :=
  ∀ st, ∃ t, trace (m st).2 = trace st ++ t ∧ Forall S t ∧
             (is_ok (m st).1 → Forall done t).

Lemma emits_silent {A} S (m : M W A) :
  (∀ st, trace (m st).2 = trace st) → emits S m.
Proof.
  intros H st. exists []. rewrite app_nil_r. by repeat split.
Qed.

Lemma emits_bind {A B} S (m : M W A) (f : A → M W B) :
  emits S m → (∀ a, emits S (f a)) → emits S (bind m f).
Proof.
  intros Hm Hf st. destruct (Hm st) as (t1 & E1 & S1 & D1). unfold bind.
  destruct (m st) as [[a|e] st1]; simpl in *.
  - destruct (Hf a st1) as (t2 & E2 & S2 & D2).
    exists (t1 ++ t2). rewrite E2, E1, app_assoc. split; [done|].
    split; [by apply Forall_app|].
    intros Hok. apply Forall_app. split; [by apply D1 | by apply D2].
  - exists t1. by repeat split.
Qed.

Lemma emits_perform {A} (S : Entry → Prop) ev (ask : W → Reply A * W) :
  (∀ s, S (ev, s)) → emits S (perform ev ask).
Proof.
  intros HS st. unfold perform.
  destruct (ask (world st)) as [r w'].
  exists [(ev, status_of r)].
  destruct r; simpl; (split; [done|]); (split; [by apply Forall_singleton|]).
  - intros _. by apply Forall_singleton.
  - intros [].
Qed.



Lemma emits_attr {A} S a (o : option A) : emits S (attr a o).
Proof. apply emits_silent. intros st. by destruct o. Qed.

Lemma emits_getRemoteObject (S : Entry → Prop) bus objectPath :
  (∀ b p s, S (EGetRemoteObject b p, s)) →
  emits S objectPath →
  emits S (getRemoteObject env bus objectPath).
Proof.
  intros HS Hp st. unfold getRemoteObject.
  apply emits_bind; [apply emits_attr|]. intros _.
  apply emits_bind; [done|]. intros p.
  apply emits_bind; [by apply emits_perform|]. intros _.
  by apply emits_silent.
Qed.

Lemma emits_systemd_call (S : Entry → Prop) member args :
  (∀ o s, S (ECallRemote o member args, s)) →
  emits S (systemd_call env member args).
Proof.
  intros HS st. unfold systemd_call.
  apply emits_bind; [apply emits_attr|]. intros obj.
  by apply emits_perform.
Qed.





End Traces.

Section Startup.
Context {W : Type}.
Variable env : Env W.

Lemma emits_run {A} S (m : M W A) st r st' :
  emits S m → m st = (r, st') →
  ∃ t, trace st' = trace st ++ t ∧ Forall S t ∧ (is_ok r → Forall done t).
Proof. intros H E. specialize (H st). by rewrite E in H. Qed.

(** A successful turn of the loop of [subscribe_props_units]. *)
Lemma subscribe_unit_Ok cell k p (st st' : State W) :
  subscribe_unit env cell k p st = (Ok tt, st') →
  trace st' = trace st ++
              [(EGetRemoteObject busName p, Done);
               (ENotifyOnSignal p "PropertiesChanged" (UnitChanged cell), Done)] ∧
  cells st' = <[cell := Some k]> (cells st) ∧
  units_path st' = units_path st.
Proof.
  unfold subscribe_unit, bind, getRemoteObject, bind, attr, ret, raise,
    perform, notifyOnSignal. simpl.
  destruct (connection st); simpl; [|discriminate].
  destruct (env_getRemoteObject env busName p (world st)) as [[[]|err] w'];
    simpl; [|discriminate].
  intros [= <-]. simpl. by rewrite <- app_assoc.
Qed.

Lemma subscribe_loop_Ok cell (l : list (string * Value)) (st st' : State W) :
  for_each l (λ '(unit_key, unit_path),
                subscribe_unit env cell unit_key unit_path) st = (Ok tt, st') →
  ∃ t, trace st' = trace st ++ t ∧
       (∀ k p, (k, p) ∈ l →
               (ENotifyOnSignal p "PropertiesChanged" (UnitChanged cell), Done) ∈ t) ∧
       cells st' = match last l with
                   | Some (k, _) => <[cell := Some k]> (cells st)
                   | None => cells st
                   end ∧
       units_path st' = units_path st.
Proof.
  revert st. induction l as [|[k p] l IH]; intros st H; simpl in H.
  - injection H as <-. exists []. rewrite app_nil_r.
    split; [done|]. split; [|done]. intros k p Hin. inversion Hin.
  - apply bind_inv_Ok in H as ([] & st1 & H1 & H2).
    apply subscribe_unit_Ok in H1 as (T1 & C1 & P1).
    destruct (IH _ H2) as (t & T2 & Hin & C2 & P2).
    eexists. split; [by rewrite T2, T1, <- app_assoc|].
    split; [|split; [|congruence]].
    + intros k' p' Hkp. apply elem_of_cons in Hkp.
      destruct Hkp as [[= -> ->]|Hkp].
      * apply elem_of_app. left. apply list_elem_of_further, list_elem_of_here.
      * apply elem_of_app. right. by apply (Hin k' p').
    + rewrite C2, C1. destruct l as [|[k2 p2] l]; [done|].
      rewrite last_cons_cons.
      destruct (last ((k2, p2) :: l)) as [[k3 p3]|] eqn:E.
      * by rewrite list_insert_insert_eq.
      * by apply last_None in E.
Qed.

(** After [subscribe_props_units] has returned, every callback it
    registered, whichever unit object it was registered on, reads the same
    cell, and that cell holds the key of the last entry of [units_path]. *)
Lemma subscribe_props_units_Ok (st st' : State W) :
  subscribe_props_units env st = (Ok tt, st') →
  ∃ t, trace st' = trace st ++ t ∧
       (∀ k p, (k, p) ∈ units_path st →
               (ENotifyOnSignal p "PropertiesChanged"
                  (UnitChanged (length (cells st))), Done) ∈ t) ∧
       (∀ k p, last (units_path st) = Some (k, p) →
               cells st' !! length (cells st) = Some (Some k)) ∧
       units_path st' = units_path st.
Proof.
  unfold subscribe_props_units. intros H.
  apply subscribe_loop_Ok in H as (t & T & Hin & C & P). simpl in *.
  exists t. repeat split; try done.
  intros k p Hlast. unfold items in C. rewrite C, Hlast.
  rewrite list_lookup_insert_eq; [done|].
  rewrite length_app. simpl. lia.
Qed.

(** The callbacks route to the last key: the general form of the
    late-binding behaviour. *)
Lemma subscribed_callbacks_route_to_last (st st' : State W) k_last p_last :
  subscribe_props_units env st = (Ok tt, st') →
  last (units_path st) = Some (k_last, p_last) →
  ∀ iface d inv,
    call env (UnitChanged (length (cells st))) iface d inv st'
    = unit_changed env k_last iface d inv st'.
Proof.
  intros H Hlast iface d inv.
  apply subscribe_props_units_Ok in H as (t & _ & _ & C & _).
  unfold call. by rewrite (C _ _ Hlast).
Qed.
End Startup.

(** C1, on the running example with a WAMP session joined.  After
    [subscribe_props_units] the callback registered on the object of ["web"]
    is the closure over cell 0; called with a delta, it leaves the properties
    of ["web"] as they were, merges the delta into those of ["db"], the last
    key of [units_path], and publishes on the topic of ["db"]. *)
Theorem subscribe_props_units_late_binding :
  let st' := (subscribe_props_units demo_env demo_started).2 in
  let r := call demo_env (UnitChanged 0) "org.freedesktop.systemd1.Unit"
             demo_delta [] st' in
  (subscribe_props_units demo_env demo_started).1 = Ok tt ∧
  trace st' = [(EGetRemoteObject busName (VStr "/unit/nginx.service"), Done);
               (ENotifyOnSignal (VStr "/unit/nginx.service") "PropertiesChanged"
                  (UnitChanged 0), Done);
               (EGetRemoteObject busName (VStr "/unit/postgresql.service"), Done);
               (ENotifyOnSignal (VStr "/unit/postgresql.service")
                  "PropertiesChanged" (UnitChanged 0), Done)] ∧
  r.1 = Ok tt ∧
  properties r.2 !! "web" = Some demo_props ∧
  properties r.2 !! "db" = Some (demo_delta ∪ demo_props) ∧
  published (trace r.2) = [("sjw.unit.db", demo_delta)].
Proof. repeat split; vm_compute; reflexivity. Qed.

Section Order.
Context {W : Type}.
Variable env : Env W.

(** The first two stages of [main_loop], grouped for the proofs: connecting
    and subscribing to the manager, then filling the mirror. *)
Definition setup : M W Value :=
  connect env "session";;;
  (λ st, (Ok tt, set_connection (Some "session") st));;;
  let* obj := getRemoteObject env busName (ret systemd_path) in
  (λ st, (Ok tt, set_systemd_dbus (Some obj) st));;;
  systemd_call env "Subscribe" [].

Definition populate : M W unit :=
  refresh_units env None;;; refresh_unit_properties env None.

Lemma main_loop_stages (st : State W) :
  main_loop env st
  = (setup;;; populate;;; subscribe_props_units env;;;
     let* result := wamp_start env in ret tt) st.
Proof.
  unfold main_loop, setup, populate, bind.
  destruct (connect env "session" st) as [[[]|e] s1]; [|done].
  destruct (getRemoteObject env busName (ret systemd_path) _)
    as [[obj|e] s2]; [|done].
  destruct (systemd_call env "Subscribe" [] _) as [[v|e] s3]; [|done].
  destruct (refresh_units env None s3) as [[[]|e] s4]; [|done].
  by destruct (refresh_unit_properties env None s4) as [[[]|e] s5].
Qed.

Lemma emits_setup : emits setup_call setup.
Proof.
  unfold setup.
  apply emits_bind; [by apply emits_perform|]. intros _.
  apply emits_bind; [by apply emits_silent|]. intros _.
  apply emits_bind.
  { apply emits_getRemoteObject; [done|]. by apply emits_silent. }
  intros obj.
  apply emits_bind; [by apply emits_silent|]. intros _.
  by apply emits_systemd_call.
Qed.


Lemma getRemoteObject_ret bus p (st st' : State W) v :
  getRemoteObject env bus (ret p) st = (Ok v, st') → v = p.
Proof.
  unfold getRemoteObject, bind, attr, ret, raise, perform.
  destruct (connection st); simpl; [|discriminate].
  destruct (env_getRemoteObject env bus p (world st)) as [[[]|err] w'];
    simpl; [|discriminate].
  by intros [= <- _].
Qed.

Lemma grows_connect busAddress : emits (λ _, True) (connect env busAddress).
Proof. by apply emits_perform. Qed.

Lemma grows_getRemoteObject bus p :
  emits (λ _, True) (getRemoteObject env bus (ret p)).
Proof. apply emits_getRemoteObject; [done|]. by apply emits_silent. Qed.

(** When [setup] returns, its calls have all completed and the last of
    them is [Subscribe] on the manager object. *)
Lemma setup_Ok (st st' : State W) v :
  setup st = (Ok v, st') →
  ∃ t, trace st' = trace st ++ t ∧ Forall setup_call t ∧ Forall done t ∧
       (ECallRemote systemd_path "Subscribe" [], Done) ∈ t.
Proof.
  intros H.
  destruct (emits_run _ _ _ _ _ emits_setup H) as (t & T & HS & HD).
  exists t. split; [done|]. split; [done|]. split; [by apply HD|].
  unfold setup in H.
  apply bind_inv_Ok in H as ([] & sa & Ha & H).
  apply bind_inv_Ok in H as ([] & sb & [= <-] & H).
  apply bind_inv_Ok in H as (obj & sc & Hobj & H).
  pose proof (getRemoteObject_ret _ _ _ _ _ Hobj) as ->.
  apply bind_inv_Ok in H as ([] & sd & [= <-] & H).
  destruct (emits_run _ _ _ _ _ (grows_connect _) Ha) as (ta & Ta & _).
  destruct (emits_run _ _ _ _ _ (grows_getRemoteObject _ _) Hobj)
    as (tc & Tc & _).
  destruct (systemd_call_issues env (set_systemd_dbus (Some systemd_path) sc)
              systemd_path "Subscribe" [] eq_refl) as (reply & w' & _ & T' & _ & R).
  rewrite H in T', R. simpl in T', R, Tc.
  destruct reply as [v'|err]; [|discriminate]. simpl in T'.
  rewrite Tc, Ta, T, <- !app_assoc in T'.
  apply app_inv_head in T' as ->.
  rewrite !elem_of_app. right. right. apply list_elem_of_here.
Qed.
End Order.

(** Start-up on the running example: it returns, the one cell shared by the
    two callbacks ends up holding ["db"], and the component is started last. *)
Example main_loop_demo :
  (main_loop demo_env (init demo_config)).1 = Ok tt ∧
  units_path (main_loop demo_env (init demo_config)).2
    = [("web", VStr "/unit/nginx.service"); ("db", VStr "/unit/postgresql.service")] ∧
  cells (main_loop demo_env (init demo_config)).2 = [Some "db"] ∧
  last (trace (main_loop demo_env (init demo_config)).2) = Some (EWampStart, Done).
Proof. repeat split; vm_compute; reflexivity. Qed.

(** * Further properties of the bridge *)

(** ** Dictionary facts *)

Section Dict_facts.
Context {V : Type}.
Implicit Types (d : dict V) (k : string) (v : V).

Lemma dget_dset_eq k v d : dget k (dset k v d) = Some v.
Proof.
  induction d as [|[k' v'] d IH]; simpl.
  - by rewrite String.eqb_refl.
  - destruct (String.eqb_spec k k') as [->|Hne]; simpl.
    + by rewrite String.eqb_refl.
    + destruct (String.eqb_spec k k'); [done|]. apply IH.
Qed.

Lemma dget_dset_ne k k' v d : k ≠ k' → dget k' (dset k v d) = dget k' d.
Proof.
  intros Hne. induction d as [|[k0 v0] d IH]; simpl.
  - by destruct (String.eqb_spec k' k) as [->|].
  - destruct (String.eqb_spec k k0) as [->|Hk]; simpl.
    + by destruct (String.eqb_spec k' k0) as [->|].
    + destruct (String.eqb_spec k' k0); [done|]. apply IH.
Qed.

Lemma dget_dset_is_Some k k' v d :
  is_Some (dget k' d) → is_Some (dget k' (dset k v d)).
Proof.
  intros H. destruct (decide (k = k')) as [->|Hne].
  - rewrite dget_dset_eq. eauto.
  - by rewrite dget_dset_ne.
Qed.

Lemma dget_is_Some k d : is_Some (dget k d) ↔ k ∈ dkeys d.
Proof.
  unfold dkeys. induction d as [|[k' v'] d IH]; simpl.
  - split; [by intros [? ?] | intros H; inversion H].
  - rewrite elem_of_cons. simpl.
    destruct (String.eqb_spec k k') as [->|Hne].
    + split; [by left | eauto].
    + rewrite IH. split; [by right | by intros [?|?]].
Qed.

Lemma dget_None k d : dget k d = None ↔ k ∉ dkeys d.
Proof.
  rewrite <- dget_is_Some. rewrite eq_None_not_Some. done.
Qed.

(** Assignment keeps the order of the keys: a key that is there keeps its
    place, a new key goes last. *)
Lemma dkeys_dset k v d :
  dkeys (dset k v d)
  = match dget k d with Some _ => dkeys d | None => dkeys d ++ [k] end.
Proof.
  unfold dkeys. induction d as [|[k' v'] d IH]; [done|].
  cbn [dset dget]. destruct (String.eqb_spec k k') as [->|Hne]; [done|].
  rewrite !fmap_cons, IH. by destruct (dget k d).
Qed.
End Dict_facts.

(** ** Invariants of computations *)

Section Invariants.
Context {W : Type}.
Variable env : Env W.

(** [keeps I m]: [m] keeps the state inside [I], however it ends. *)
Definition keeps {A} (I : State W → Prop) (m : M W A) : Prop :=
  ∀ st, I st → I (m st).2.

(** [I] looks neither at the world nor at the trace. *)
Definition quiet (I : State W → Prop) : Prop :=
  (∀ t st, I st → I (set_trace t st)) ∧ (∀ w st, I st → I (set_world w st)).

Lemma keeps_bind {A B} I (m : M W A) (f : A → M W B) :
  keeps I m → (∀ a, keeps I (f a)) → keeps I (bind m f).
Proof.
  intros Hm Hf st HI. unfold bind. specialize (Hm st HI).
  destruct (m st) as [[a|e] st1]; simpl in *; [by apply Hf | done].
Qed.

Lemma keeps_perform {A} I ev (ask : W → Reply A * W) :
  quiet I → keeps I (perform ev ask).
Proof.
  intros [Ht Hw] st HI. unfold perform.
  destruct (ask (world st)) as [[a|e] w']; simpl; by apply Ht, Hw.
Qed.

Lemma keeps_for_each {A} I (l : list A) (body : A → M W unit) :
  (∀ x, x ∈ l → keeps I (body x)) → keeps I (for_each l body).
Proof.
  induction l as [|x l IH]; intros Hb; simpl; [by intros st HI|].
  apply keeps_bind; [apply Hb, list_elem_of_here|]. intros _.
  apply IH. intros y Hy. by apply Hb, list_elem_of_further.
Qed.

Lemma keeps_subscript {A} I k (o : option A) : keeps I (subscript k o).
Proof. intros st HI. by destruct o. Qed.

Lemma keeps_attr {A} I a (o : option A) : keeps I (attr a o).
Proof. intros st HI. by destruct o. Qed.

Lemma keeps_ret {A} I (a : A) : keeps I (ret (W:=W) a).
Proof. by intros st HI. Qed.

Lemma keeps_update I (f : State W → State W) :
  (∀ st, I st → I (f st)) → keeps I (λ st, (Ok tt, f st)).
Proof. intros H st HI. by apply H. Qed.

Lemma keeps_systemd_call I member args :
  quiet I → keeps I (systemd_call env member args).
Proof.
  intros Hq st. unfold systemd_call.
  apply keeps_bind; [apply keeps_attr|]. intros obj.
  by apply keeps_perform.
Qed.

Lemma keeps_getRemoteObject I bus objectPath :
  quiet I → keeps I objectPath → keeps I (getRemoteObject env bus objectPath).
Proof.
  intros Hq Hp st. unfold getRemoteObject.
  apply keeps_bind; [apply keeps_attr|]. intros _.
  apply keeps_bind; [done|]. intros p.
  apply keeps_bind; [by apply keeps_perform|]. intros _.
  apply keeps_ret.
Qed.

Lemma keeps_tracked_path I k :
  keeps I (λ st : State W, subscript k (dget k (units_path st)) st).
Proof. intros st HI. apply keeps_subscript, HI. Qed.

(** The loop bodies, for an invariant that the assignments of the body keep. *)
Lemma keeps_refresh_unit I key unit_name :
  quiet I →
  (∀ path st, I st → I (set_units_path (dset key path (units_path st)) st)) →
  (∀ props st, I st → I (set_properties (<[key := props]> (properties st)) st)) →
  (∀ u st, I st → I (set_units (<[key := u]> (units st)) st)) →
  keeps I (refresh_unit env key unit_name).
Proof.
  intros Hq Hpath Hprops Hunits. unfold refresh_unit.
  apply keeps_bind; [by apply keeps_systemd_call|]. intros path.
  apply keeps_bind; [apply keeps_update, Hpath|]. intros _.
  apply keeps_bind.
  { apply keeps_getRemoteObject; [done | apply keeps_tracked_path]. }
  intros unit_dbus.
  apply keeps_bind; [by apply keeps_perform|]. intros props.
  apply keeps_bind; [apply keeps_update, Hprops|]. intros _.
  do 4 (apply keeps_bind; [apply keeps_subscript|]; intros ?).
  apply keeps_update, Hunits.
Qed.

Lemma keeps_refresh_properties I unit_key :
  quiet I →
  (∀ props st, I st → is_Some (dget unit_key (units_path st)) →
               I (set_properties (<[unit_key := props]> (properties st)) st)) →
  keeps I (refresh_properties env unit_key).
Proof.
  intros [Ht Hw] Hprops st HI.
  unfold refresh_properties, bind, getRemoteObject, bind, attr, subscript,
    ret, raise, GetAll, perform.
  destruct (connection st); cbn [fst snd]; [|done].
  destruct (dget unit_key (units_path st)) as [p|] eqn:Hp; cbn [fst snd]; [|done].
  destruct (env_getRemoteObject env busName p (world st)) as [[[]|err] w1];
    cbn [fst snd]; [|by apply Ht, Hw].
  match goal with
  | |- context [env_GetAll env p ?w] =>
      destruct (env_GetAll env p w) as [[props|err] w2]
  end; cbn [fst snd]; [|by apply Ht, Hw, Ht, Hw].
  apply Hprops; [by apply Ht, Hw, Ht, Hw|]. simpl. rewrite Hp. eauto.
Qed.
End Invariants.

(** ** The mirror stays inside the catalog *)

(** Every key under which the bridge keeps something (an object path, a
    [Unit], a property map, or the key a callback will use) is a key of
    [units_name]. *)
Definition within_catalog {W} (st : State W) : Prop :=
  (∀ k, is_Some (dget k (units_path st)) → is_Some (dget k (units_name st))) ∧
  (∀ k, is_Some (units st !! k) → is_Some (dget k (units_name st))) ∧
  (∀ k, is_Some (properties st !! k) → is_Some (dget k (units_name st))) ∧
  (∀ c k, cells st !! c = Some (Some k) → is_Some (dget k (units_name st))).

Section Catalog.
Context {W : Type}.
Variable env : Env W.

(** The invariant with the catalog named: [units_name] is never assigned. *)
Definition catalogued (N : dict string) (st : State W) : Prop :=
  units_name st = N ∧ within_catalog st.

Lemma catalogued_quiet N : quiet (catalogued N).
Proof. split; intros ? st H; exact H. Qed.

Lemma catalogued_set_path N key path st :
  is_Some (dget key N) → catalogued N st →
  catalogued N (set_units_path (dset key path (units_path st)) st).
Proof.
  intros Hkey [HN (Hp & Hu & Hpr & Hc)]. split; [done|].
  split; [|done]. simpl. intros k Hk.
  destruct (decide (key = k)) as [<-|Hne]; [by rewrite HN|].
  rewrite dget_dset_ne in Hk by done. by apply Hp.
Qed.

Lemma catalogued_set_props N key props st :
  is_Some (dget key N) → catalogued N st →
  catalogued N (set_properties (<[key := props]> (properties st)) st).
Proof.
  intros Hkey [HN (Hp & Hu & Hpr & Hc)]. split; [done|].
  split; [done|]. split; [done|]. split; [|done]. simpl. intros k Hk.
  destruct (decide (key = k)) as [<-|Hne]; [by rewrite HN|].
  rewrite lookup_insert_ne in Hk by done. by apply Hpr.
Qed.

Lemma catalogued_set_unit N key u st :
  is_Some (dget key N) → catalogued N st →
  catalogued N (set_units (<[key := u]> (units st)) st).
Proof.
  intros Hkey [HN (Hp & Hu & Hpr & Hc)]. split; [done|].
  split; [done|]. split; [|done]. simpl. intros k Hk.
  destruct (decide (key = k)) as [<-|Hne]; [by rewrite HN|].
  rewrite lookup_insert_ne in Hk by done. by apply Hu.
Qed.

Lemma catalogued_set_cell N cell key st :
  is_Some (dget key N) → catalogued N st →
  catalogued N (set_cells (<[cell := Some key]> (cells st)) st).
Proof.
  intros Hkey [HN (Hp & Hu & Hpr & Hc)]. split; [done|].
  split; [done|]. split; [done|]. split; [done|]. simpl. intros c k Hk.
  apply list_lookup_insert_Some in Hk as [(-> & [= ->] & _)|[_ Hk]].
  - by rewrite HN.
  - by apply (Hc c).
Qed.

Lemma catalogued_new_cell N st :
  catalogued N st → catalogued N (set_cells (cells st ++ [None]) st).
Proof.
  intros [HN (Hp & Hu & Hpr & Hc)]. split; [done|].
  split; [done|]. split; [done|]. split; [done|]. simpl. intros c k Hk.
  apply lookup_app_Some in Hk as [Hk|[_ Hk]]; [by apply (Hc c)|].
  by destruct (c - length (cells st)) as [|[|n]].
Qed.

Lemma elem_of_catalog {V} (N : dict V) key (v : V) :
  (key, v) ∈ N → is_Some (dget key N).
Proof.
  intros H. apply dget_is_Some. unfold dkeys.
  apply list_elem_of_fmap. by exists (key, v).
Qed.

Lemma catalogued_refresh_units N filter_keys :
  keeps (catalogued N) (refresh_units env filter_keys).
Proof.
  intros st HI. unfold refresh_units. apply keeps_for_each; [|done].
  intros [key unit_name] Hin. destruct HI as [HN _]. unfold items in Hin.
  rewrite HN in Hin. apply elem_of_catalog in Hin.
  destruct (in_filter filter_keys key); [|apply keeps_ret].
  apply keeps_refresh_unit; [apply catalogued_quiet| | |]; intros ? s Hs.
  - by apply catalogued_set_path.
  - by apply catalogued_set_props.
  - by apply catalogued_set_unit.
Qed.

Lemma catalogued_refresh_properties N unit_key :
  keeps (catalogued N) (refresh_properties env unit_key).
Proof.
  apply keeps_refresh_properties; [apply catalogued_quiet|].
  intros props st HI Hk. apply catalogued_set_props; [|done].
  destruct HI as [<- (Hp & _)]. by apply Hp.
Qed.

Lemma catalogued_refresh_unit_properties N unit_keys :
  keeps (catalogued N) (refresh_unit_properties env unit_keys).
Proof.
  intros st HI. unfold refresh_unit_properties.
  apply keeps_for_each; [|done]. intros k _. apply catalogued_refresh_properties.
Qed.

Lemma catalogued_list_units N : keeps (catalogued N) (list_units env).
Proof.
  unfold list_units. apply keeps_bind; [apply catalogued_refresh_units|].
  intros _ st HI. exact HI.
Qed.

Lemma catalogued_query N unit_keys : keeps (catalogued N) (query env unit_keys).
Proof.
  intros st HI. unfold query.
  apply keeps_bind; [apply catalogued_refresh_unit_properties| |done].
  intros _ s Hs. exact Hs.
Qed.

Lemma catalogued_resolve {A} N k (f : string → M W A) :
  (∀ n, keeps (catalogued N) (f n)) →
  keeps (catalogued N)
    (let* unit_name := (λ st, subscript k (dget k (units_name st)) st) in
     f unit_name).
Proof.
  intros Hf. apply keeps_bind; [|done].
  intros st HI. by apply keeps_subscript.
Qed.

Lemma catalogued_lifecycle N k :
  keeps (catalogued N) (start env k) ∧ keeps (catalogued N) (stop env k) ∧
  keeps (catalogued N) (enable env k) ∧ keeps (catalogued N) (disable env k).
Proof.
  pose proof (catalogued_quiet N) as Hq.
  split; [|split; [|split]]; unfold start, stop, enable, disable;
    apply catalogued_resolve; intros n;
    (apply keeps_bind; [by apply keeps_systemd_call|]); intros result;
    first [apply keeps_ret
          |apply keeps_bind; [by apply keeps_systemd_call|];
           intros _; apply keeps_ret].
Qed.

Lemma catalogued_subscribe_props_units N :
  keeps (catalogued N) (subscribe_props_units env).
Proof.
  intros st HI. unfold subscribe_props_units.
  apply keeps_for_each; [|by apply catalogued_new_cell].
  intros [unit_key unit_path] Hin. unfold items in Hin.
  assert (Hkey : is_Some (dget unit_key N)).
  { destruct HI as [<- (Hp & _)]. by apply Hp, (elem_of_catalog _ _ unit_path). }
  unfold subscribe_unit.
  apply keeps_bind.
  { apply keeps_update. intros s Hs. by apply catalogued_set_cell. }
  intros _. apply keeps_bind.
  { apply keeps_getRemoteObject; [apply catalogued_quiet | apply keeps_ret]. }
  intros unit_dbus s Hs. exact Hs.
Qed.

Lemma catalogued_on_unit_changed N k d :
  keeps (catalogued N) (on_unit_changed env k d).
Proof.
  intros st HI. unfold on_unit_changed.
  destruct (wamp_session st); [|done].
  by apply keeps_perform; [apply catalogued_quiet|].
Qed.

Lemma catalogued_call N cb iface d inv :
  keeps (catalogued N) (call env cb iface d inv).
Proof.
  intros st HI. destruct cb as [cell]. unfold call.
  destruct (cells st !! cell) as [[unit_key|]|] eqn:Hcell; [|done..].
  assert (Hkey : is_Some (dget unit_key N)).
  { destruct HI as [<- (_ & _ & _ & Hc)]. by apply (Hc cell). }
  unfold unit_changed.
  apply keeps_bind; [| intros _; apply catalogued_on_unit_changed | done].
  apply keeps_update. intros s Hs. by apply catalogued_set_props.
Qed.

Lemma catalogued_sessions N session :
  keeps (catalogued N) (initialize env session) ∧
  keeps (catalogued N) (uninitialize (W:=W)).
Proof.
  pose proof (catalogued_quiet N) as Hq. split.
  - unfold initialize, register.
    apply keeps_bind; [intros st HI; exact HI|]. intros _.
    do 5 (apply keeps_bind; [by apply keeps_perform|]; intros _).
    by apply keeps_perform.
  - intros st HI. exact HI.
Qed.

Lemma catalogued_main_loop N : keeps (catalogued N) (main_loop env).
Proof.
  pose proof (catalogued_quiet N) as Hq. unfold main_loop, connect, wamp_start.
  apply keeps_bind; [by apply keeps_perform|]. intros _.
  apply keeps_bind; [intros st HI; exact HI|]. intros _.
  apply keeps_bind.
  { apply keeps_getRemoteObject; [done | apply keeps_ret]. }
  intros obj.
  apply keeps_bind; [intros st HI; exact HI|]. intros _.
  apply keeps_bind; [by apply keeps_systemd_call|]. intros _.
  apply keeps_bind; [apply catalogued_refresh_units|]. intros _.
  apply keeps_bind; [apply catalogued_refresh_unit_properties|]. intros _.
  apply keeps_bind; [apply catalogued_subscribe_props_units|]. intros _.
  apply keeps_bind; [by apply keeps_perform|]. intros result.
  apply keeps_ret.
Qed.

(** X1. The mirror never leaves the catalog.  From a state in which every
    key of [units_path], [units], [properties] and of the callbacks' cells
    is a key of [units_name], start-up, the six remote procedures, the
    session handlers and the signal callbacks all end, whether they return
    or raise, in such a state again. *)
Theorem mirror_within_catalog (st : State W) :
  within_catalog st →
  within_catalog (main_loop env st).2 ∧
  within_catalog (list_units env st).2 ∧
  (∀ unit_keys, within_catalog (query env unit_keys st).2) ∧
  (∀ k, within_catalog (start env k st).2 ∧ within_catalog (stop env k st).2 ∧
        within_catalog (enable env k st).2 ∧
        within_catalog (disable env k st).2) ∧
  (∀ session, within_catalog (initialize env session st).2) ∧
  within_catalog (uninitialize st).2 ∧
  (∀ cb iface d inv, within_catalog (call env cb iface d inv st).2).
Proof.
  intros HI.
  assert (HN : catalogued (units_name st) st) by done.
  split; [by apply (catalogued_main_loop _ st HN)|].
  split; [by apply (catalogued_list_units _ st HN)|].
  split; [intros ks; by apply (catalogued_query _ ks st HN)|].
  split.
  { intros k. destruct (catalogued_lifecycle (units_name st) k)
      as (H1 & H2 & H3 & H4).
    split; [apply (H1 st HN)|]. split; [apply (H2 st HN)|].
    split; [apply (H3 st HN) | apply (H4 st HN)]. }
  split.
  { intros s. destruct (catalogued_sessions (units_name st) s) as [H _].
    apply (H st HN). }
  split; [done|].
  intros cb iface d inv. by apply (catalogued_call _ cb iface d inv st HN).
Qed.
End Catalog.

Lemma init_within_catalog config_units : within_catalog (init config_units).
Proof.
  repeat split; simpl.
  - by intros k [? ?].
  - intros k [? H]. by rewrite lookup_empty in H.
  - intros k [? H]. by rewrite lookup_empty in H.
  - intros c k H. by rewrite lookup_nil in H.
Qed.

(** A run that is seen to return, as an equation. *)
Lemma returns_eq {W A} (m : M W A) (st : State W) (d : A) :
  is_ok (m st).1 = true →
  m st = (Ok (match (m st).1 with Ok a => a | Raise _ => d end), (m st).2).
Proof. destruct (m st) as [[a|e] s]; simpl; [done | discriminate]. Qed.

Lemma returns_unit {W} (m : M W unit) (st : State W) :
  is_ok (m st).1 = true → m st = (Ok tt, (m st).2).
Proof. destruct (m st) as [[[]|e] s]; simpl; [done | discriminate]. Qed.

(** X1, on the running example, from the state [App.__init__] leaves. *)
Lemma mirror_within_catalog_witness :
  within_catalog (main_loop demo_env (init demo_config)).2 ∧
  within_catalog (list_units demo_env (init demo_config)).2 ∧
  (∀ unit_keys, within_catalog (query demo_env unit_keys (init demo_config)).2) ∧
  (∀ k, within_catalog (start demo_env k (init demo_config)).2 ∧
        within_catalog (stop demo_env k (init demo_config)).2 ∧
        within_catalog (enable demo_env k (init demo_config)).2 ∧
        within_catalog (disable demo_env k (init demo_config)).2) ∧
  (∀ session, within_catalog (initialize demo_env session (init demo_config)).2) ∧
  within_catalog (uninitialize (init demo_config)).2 ∧
  (∀ cb iface d inv,
     within_catalog (call demo_env cb iface d inv (init demo_config)).2).
Proof.
  apply (mirror_within_catalog demo_env (init demo_config)).
  apply init_within_catalog.
Defined.

(** ** What a successful refresh leaves behind *)

Section Refresh.
Context {W : Type}.
Variable env : Env W.

Lemma perform_Ok {A} ev (ask : W → Reply A * W) (st st' : State W) a :
  perform ev ask st = (Ok a, st') →
  ∃ w', ask (world st) = (Returned a, w') ∧
        st' = set_trace (trace st ++ [(ev, Done)]) (set_world w' st).
Proof.
  unfold perform. destruct (ask (world st)) as [[a'|err] w']; [|discriminate].
  intros [= <- <-]. eauto.
Qed.

Lemma systemd_call_Ok member args (st st' : State W) v :
  systemd_call env member args st = (Ok v, st') →
  ∃ obj w', systemd_dbus st = Some obj ∧
            env_callRemote env obj member args (world st) = (Returned v, w') ∧
            st' = set_trace (trace st ++ [(ECallRemote obj member args, Done)])
                    (set_world w' st).
Proof.
  unfold systemd_call, bind, attr, raise, ret, callRemote.
  destruct (systemd_dbus st) as [obj|]; [|discriminate].
  intros H. apply perform_Ok in H as (w' & E & ->). eauto.
Qed.

Lemma getRemoteObject_tracked_Ok bus key (st st' : State W) v :
  getRemoteObject env bus
    (λ st, subscript key (dget key (units_path st)) st) st = (Ok v, st') →
  ∃ w', is_Some (connection st) ∧ dget key (units_path st) = Some v ∧
        env_getRemoteObject env bus v (world st) = (Returned tt, w') ∧
        st' = set_trace (trace st ++ [(EGetRemoteObject bus v, Done)])
                (set_world w' st).
Proof.
  unfold getRemoteObject, bind, attr, subscript, raise, ret.
  destruct (connection st) as [c|]; [|discriminate].
  destruct (dget key (units_path st)) as [p|]; [|discriminate].
  destruct (perform _ _ st) as [[[]|e] s1] eqn:E; [|discriminate].
  intros [= <- <-]. apply perform_Ok in E as (w' & E & ->). eauto 10.
Qed.

Lemma prop_Ok props k (st st' : State W) v :
  prop props k st = (Ok v, st') → props !! k = Some v ∧ st' = st.
Proof.
  unfold prop, subscript, ret, raise.
  destruct (props !! k); [|discriminate]. by intros [= <- <-].
Qed.

(** A successful turn of the loop of [refresh_units], field by field. *)
Lemma refresh_unit_stores key unit_name (st st' : State W) :
  refresh_unit env key unit_name st = (Ok tt, st') →
  ∃ path props u,
    units_path st' = dset key path (units_path st) ∧
    properties st' = <[key := props]> (properties st) ∧
    units st' = <[key := u]> (units st) ∧
    name u = unit_name ∧
    props !! "Description" = Some (description u) ∧
    props !! "ActiveState" = Some (active u) ∧
    props !! "SubState" = Some (sub u) ∧
    props !! "UnitFileState" = Some (enabled u).
Proof.
  unfold refresh_unit. intros H.
  apply bind_inv_Ok in H as (path & s1 & H1 & H).
  apply systemd_call_Ok in H1 as (obj & w1 & _ & _ & ->).
  apply bind_inv_Ok in H as ([] & s2 & [= <-] & H).
  apply bind_inv_Ok in H as (unit_dbus & s3 & H3 & H).
  apply getRemoteObject_tracked_Ok in H3 as (w3 & _ & _ & _ & ->).
  apply bind_inv_Ok in H as (props & s4 & H4 & H).
  apply perform_Ok in H4 as (w4 & _ & ->).
  apply bind_inv_Ok in H as ([] & s5 & [= <-] & H).
  apply bind_inv_Ok in H as (d & s6 & H6 & H). apply prop_Ok in H6 as [Hd ->].
  apply bind_inv_Ok in H as (a & s7 & H7 & H). apply prop_Ok in H7 as [Ha ->].
  apply bind_inv_Ok in H as (s & s8 & H8 & H). apply prop_Ok in H8 as [Hs ->].
  apply bind_inv_Ok in H as (e & s9 & H9 & H). apply prop_Ok in H9 as [He ->].
  injection H as <-.
  by exists path, props, (mkUnit unit_name d a s e).
Qed.

(** The mirror has all three entries for [k]. *)
Definition populated (k : string) (st : State W) : Prop :=
  is_Some (dget k (units_path st)) ∧ is_Some (properties st !! k) ∧
  is_Some (units st !! k).

Lemma populated_quiet k : quiet (populated k).
Proof. split; intros ? st H; exact H. Qed.

Lemma populated_set_path k key path st :
  populated k st → populated k (set_units_path (dset key path (units_path st)) st).
Proof. intros (H1 & H2 & H3). split; [|done]. by apply dget_dset_is_Some. Qed.

Lemma populated_set_props k key props st :
  populated k st →
  populated k (set_properties (<[key := props]> (properties st)) st).
Proof.
  intros (H1 & H2 & H3). split; [done|]. split; [|done]. simpl.
  rewrite lookup_insert_is_Some. destruct (decide (key = k)); eauto.
Qed.

Lemma populated_set_unit k key u st :
  populated k st → populated k (set_units (<[key := u]> (units st)) st).
Proof.
  intros (H1 & H2 & H3). split; [done|]. split; [done|]. simpl.
  rewrite lookup_insert_is_Some. destruct (decide (key = k)); eauto.
Qed.

Lemma populated_refresh_unit k key unit_name :
  keeps (populated k) (refresh_unit env key unit_name).
Proof.
  apply keeps_refresh_unit; [apply populated_quiet| | |]; intros ? st H.
  - by apply populated_set_path.
  - by apply populated_set_props.
  - by apply populated_set_unit.
Qed.

Lemma populated_refresh_unit_properties k unit_keys :
  keeps (populated k) (refresh_unit_properties env unit_keys).
Proof.
  intros st H. unfold refresh_unit_properties.
  apply keeps_for_each; [|done]. intros key _.
  apply keeps_refresh_properties; [apply populated_quiet|].
  intros props s Hs _. by apply populated_set_props.
Qed.

Lemma populated_subscribe_props_units k :
  keeps (populated k) (subscribe_props_units env).
Proof.
  intros st H. unfold subscribe_props_units.
  apply keeps_for_each; [|exact H].
  intros [unit_key unit_path] _. unfold subscribe_unit.
  apply keeps_bind; [intros s Hs; exact Hs|]. intros _.
  apply keeps_bind.
  { apply keeps_getRemoteObject; [apply populated_quiet | apply keeps_ret]. }
  intros unit_dbus s Hs. exact Hs.
Qed.

Lemma refresh_loop_populated (l : list (string * string)) (st st' : State W) :
  for_each l (λ '(key, unit_name),
                if in_filter None key then refresh_unit env key unit_name
                else ret tt) st = (Ok tt, st') →
  ∀ k, k ∈ l.*1 → populated k st'.
Proof.
  revert st. induction l as [|[key un] l IH]; intros st H k Hk.
  - inversion Hk.
  - cbn [for_each] in H. apply bind_inv_Ok in H as ([] & s1 & H1 & H2).
    change (refresh_unit env key un st = (Ok tt, s1)) in H1.
    destruct (decide (k ∈ l.*1)) as [Hin|Hnin]; [by apply (IH _ H2)|].
    rewrite fmap_cons in Hk. apply elem_of_cons in Hk.
    destruct Hk as [->|Hk]; [|done]. simpl.
    assert (Hpop : populated key s1).
    { apply refresh_unit_stores in H1
        as (path & props & u & Hp & Hpr & Hu & _).
      unfold populated. rewrite Hp, Hpr, Hu, dget_dset_eq, !lookup_insert_eq.
      eauto. }
    pose proof (keeps_for_each (populated key) l
                  (λ '(key, unit_name),
                     if in_filter None key then refresh_unit env key unit_name
                     else ret tt)) as Hkeep.
    specialize (Hkeep (λ '(k0, n0) _, populated_refresh_unit key k0 n0) s1 Hpop).
    cbn beta in Hkeep.
    by rewrite H2 in Hkeep.
Qed.
End Refresh.

Section Views.
Context {W : Type}.
Variable env : Env W.





(** [list_units] returns a view for exactly the keys of [units]. *)
Lemma list_units_keys (st st' : State W) (res : gmap string PropertyMap) :
  list_units env st = (Ok res, st') → res = to_dict <$> units st'.
Proof.
  unfold list_units. intros H.
  by apply bind_inv_Ok in H as ([] & s1 & H1 & [= <- <-]).
Qed.
End Views.



Section Established.
Context {W : Type}.
Variable env : Env W.

(** The bridge holds its bus connection and the manager object. *)
Definition connected (st : State W) : Prop :=
  connection st = Some "session" ∧ systemd_dbus st = Some systemd_path.

Lemma getRemoteObject_ret_Ok bus p (st st' : State W) v :
  getRemoteObject env bus (ret p) st = (Ok v, st') →
  v = p ∧ ∃ w', st' = set_trace (trace st ++ [(EGetRemoteObject bus p, Done)])
                        (set_world w' st).
Proof.
  unfold getRemoteObject, bind, attr, raise, ret.
  destruct (connection st) as [c|]; [|discriminate].
  destruct (perform _ _ st) as [[[]|e] s1] eqn:E; [|discriminate].
  intros [= <- <-]. apply perform_Ok in E as (w' & E & ->). eauto.
Qed.

Lemma setup_connects (st st' : State W) v :
  setup env st = (Ok v, st') →
  connected st' ∧ units_name st' = units_name st.
Proof.
  unfold setup, connect. intros H.
  apply bind_inv_Ok in H as ([] & sa & Ha & H).
  apply perform_Ok in Ha as (wa & _ & ->).
  apply bind_inv_Ok in H as ([] & sb & [= <-] & H).
  apply bind_inv_Ok in H as (obj & sc & Hobj & H).
  apply getRemoteObject_ret_Ok in Hobj as (-> & wc & ->).
  apply bind_inv_Ok in H as ([] & sd & [= <-] & H).
  apply systemd_call_Ok in H as (o & wd & _ & _ & ->). done.
Qed.

Lemma connected_quiet N :
  quiet (λ st : State W, connected st ∧ units_name st = N).
Proof. split; intros ? st H; exact H. Qed.

Lemma connected_populate N :
  keeps (λ st, connected st ∧ units_name st = N) (populate env).
Proof.
  pose proof (connected_quiet N) as Hq. unfold populate.
  apply keeps_bind.
  { intros st HI. unfold refresh_units. apply keeps_for_each; [|done].
    intros [key unit_name] _. destruct (in_filter None key); [|apply keeps_ret].
    apply keeps_refresh_unit; [done|..]; intros ? s Hs; exact Hs. }
  intros _ st HI. unfold refresh_unit_properties.
  apply keeps_for_each; [|done]. intros key _.
  apply keeps_refresh_properties; [done|]. intros props s Hs _. exact Hs.
Qed.

Lemma connected_subscribe_props_units N :
  keeps (λ st, connected st ∧ units_name st = N) (subscribe_props_units env).
Proof.
  intros st H. unfold subscribe_props_units.
  apply keeps_for_each; [|exact H].
  intros [unit_key unit_path] _. unfold subscribe_unit.
  apply keeps_bind; [intros s Hs; exact Hs|]. intros _.
  apply keeps_bind.
  { apply keeps_getRemoteObject; [apply connected_quiet | apply keeps_ret]. }
  intros unit_dbus s Hs. exact Hs.
Qed.

(** X3. What start-up establishes.  When [main_loop] returns, the bridge
    holds the session-bus connection and the manager object, and for every
    key of [units_name] the mirror has an object path, a property map and a
    [Unit]: the state in which the remote procedures are then served. *)
Theorem main_loop_establishes (st st' : State W) :
  main_loop env st = (Ok tt, st') →
  connected st' ∧ units_name st' = units_name st ∧
  ∀ k, k ∈ dkeys (units_name st) → populated k st'.
Proof.
  rewrite main_loop_stages. intros H.
  apply bind_inv_Ok in H as (v & s1 & H1 & H).
  apply bind_inv_Ok in H as ([] & s2 & H2 & H).
  apply bind_inv_Ok in H as ([] & s3 & H3 & H).
  apply bind_inv_Ok in H as (r & s4 & H4 & [= <-]).
  apply setup_connects in H1 as [Hc HN].
  pose proof (connected_populate (units_name st) s1 (conj Hc HN)) as C2.
  rewrite H2 in C2.
  pose proof (connected_subscribe_props_units (units_name st) s2 C2) as C3.
  rewrite H3 in C3.
  apply perform_Ok in H4 as (w4 & _ & ->).
  destruct C3 as [C3 N3]. split; [exact C3|]. split; [exact N3|].
  intros k Hk. unfold populate in H2.
  apply bind_inv_Ok in H2 as ([] & s2' & H2a & H2b).
  unfold refresh_units in H2a. rewrite HN in H2a.
  pose proof (refresh_loop_populated env _ _ _ H2a k Hk) as P.
  pose proof (populated_refresh_unit_properties env k None s2' P) as P2.
  rewrite H2b in P2.
  pose proof (populated_subscribe_props_units env k s2 P2) as P3.
  rewrite H3 in P3. exact P3.
Qed.
End Established.

(** X3, on the running example. *)
Lemma main_loop_establishes_witness :
  connected (main_loop demo_env (init demo_config)).2 ∧
  units_name (main_loop demo_env (init demo_config)).2 = demo_config ∧
  ∀ k, k ∈ ["web"; "db"] →
       populated k (main_loop demo_env (init demo_config)).2.
Proof.
  apply (main_loop_establishes demo_env (init demo_config)
           (main_loop demo_env (init demo_config)).2).
  apply returns_unit. by vm_compute.
Defined.

(** ** Queries *)

Section Query_results.
Context {W : Type}.
Variable env : Env W.

(** The comprehension keeps a requested key when it has properties. *)
Lemma lookup_select (unit_keys : list string) (props : gmap string PropertyMap) k :
  select unit_keys props !! k
  = if bool_decide (k ∈ unit_keys) then props !! k else None.
Proof.
  induction unit_keys as [|k0 ks IH]; simpl; [by rewrite lookup_empty|].
  destruct (decide (k = k0)) as [->|Hne].
  - rewrite bool_decide_eq_true_2 by apply list_elem_of_here.
    destruct (props !! k0) as [p|] eqn:E.
    + by rewrite lookup_insert_eq.
    + rewrite IH. by destruct (bool_decide (k0 ∈ ks)).
  - assert (bool_decide (k ∈ k0 :: ks) = bool_decide (k ∈ ks)) as ->.
    { apply bool_decide_ext. rewrite elem_of_cons.
      split; [by intros [?|?] | by right]. }
    destruct (props !! k0); [by rewrite lookup_insert_ne|done].
Qed.

Lemma refresh_properties_Ok unit_key (st st' : State W) :
  refresh_properties env unit_key st = (Ok tt, st') →
  ∃ props, is_Some (dget unit_key (units_path st)) ∧
           properties st' = <[unit_key := props]> (properties st) ∧
           units st' = units st ∧ units_path st' = units_path st.
Proof.
  unfold refresh_properties. intros H.
  apply bind_inv_Ok in H as (unit_dbus & s1 & H1 & H).
  apply getRemoteObject_tracked_Ok in H1 as (w1 & _ & Hk & _ & ->).
  apply bind_inv_Ok in H as (props & s2 & H2 & [= <-]).
  apply perform_Ok in H2 as (w2 & _ & ->).
  exists props. simpl. rewrite Hk. eauto.
Qed.

Lemma refresh_properties_loop_Ok (l : list string) (st st' : State W) :
  for_each l (refresh_properties env) st = (Ok tt, st') →
  (∀ k, k ∈ l → is_Some (dget k (units_path st)) ∧
                is_Some (properties st' !! k)) ∧
  (∀ k, k ∉ l → properties st' !! k = properties st !! k) ∧
  units st' = units st ∧ units_path st' = units_path st.
Proof.
  revert st. induction l as [|k0 l IH]; intros st H; simpl in H.
  - injection H as <-. split; [|done]. intros k Hk. inversion Hk.
  - apply bind_inv_Ok in H as ([] & s1 & H1 & H2).
    apply refresh_properties_Ok in H1 as (props & Hk0 & Hp & Hu & Hpath).
    destruct (IH _ H2) as (Hin & Hout & Hu' & Hpath').
    split; [|split; [|split; congruence]].
    + intros k Hk. destruct (decide (k ∈ l)) as [Hl|Hl].
      * destruct (Hin k Hl) as [? ?]. split; [congruence | done].
      * apply elem_of_cons in Hk. destruct Hk as [->|Hk]; [|done].
        split; [done|]. rewrite (Hout k0 Hl), Hp, lookup_insert_eq. eauto.
    + intros k Hk. apply not_elem_of_cons in Hk as [Hne Hk].
      rewrite (Hout k Hk), Hp. by rewrite lookup_insert_ne.
Qed.

(** The keys [query] works on: the arguments, or every tracked key when
    there are none. *)
Definition requested (unit_keys : list string) (st : State W) : list string :=
  match unit_keys with [] => dkeys (units_path st) | _ => unit_keys end.

(** X4. What [query] returns.  When [query] called with [unit_keys] returns, each
    requested key (each tracked key when none is given) is tracked and is in
    the result with the property map now stored for it, nothing else is in
    the result, and [units] and [units_path] are as before. *)
Theorem query_result (unit_keys : list string) (st st' : State W)
    (res : gmap string PropertyMap) :
  query env unit_keys st = (Ok res, st') →
  (∀ k, k ∈ requested unit_keys st →
        is_Some (dget k (units_path st)) ∧ is_Some (res !! k) ∧
        res !! k = properties st' !! k) ∧
  (∀ k, k ∉ requested unit_keys st → res !! k = None) ∧
  units st' = units st ∧ units_path st' = units_path st.
Proof.
  unfold query. fold (requested unit_keys st). intros H.
  apply bind_inv_Ok in H as ([] & s1 & H1 & [= <- <-]).
  assert (H1' : for_each (requested unit_keys st) (refresh_properties env) st
                = (Ok tt, s1)).
  { unfold refresh_unit_properties in H1.
    destruct (requested unit_keys st) as [|k ks] eqn:E; [|done].
    destruct unit_keys; simpl in E; [by rewrite E in H1 | done]. }
  apply refresh_properties_loop_Ok in H1' as (Hin & _ & Hu & Hp).
  split; [|split; [|done]].
  - intros k Hk. destruct (Hin k Hk) as [Ht Hs].
    rewrite lookup_select, bool_decide_eq_true_2 by done. done.
  - intros k Hk. by rewrite lookup_select, bool_decide_eq_false_2.
Qed.

(** One turn of [refresh_unit_properties], spelled out. *)
Lemma refresh_properties_unfold unit_key (st : State W) :
  refresh_properties env unit_key st
  = match connection st with
    | None => (Raise (AttributeError "getRemoteObject"), st)
    | Some _ =>
      match dget unit_key (units_path st) with
      | None => (Raise (KeyError unit_key), st)
      | Some p =>
        let (r1, w1) := env_getRemoteObject env busName p (world st) in
        let s1 := set_trace (trace st ++ [(EGetRemoteObject busName p, status_of r1)])
                    (set_world w1 st) in
        match r1 with
        | Raised err => (Raise (RemoteError err), s1)
        | Returned _ =>
          let (r2, w2) := env_GetAll env p w1 in
          let s2 := set_trace (trace s1 ++ [(ECallRemote p "GetAll" [VStr ""],
                                            status_of r2)])
                      (set_world w2 s1) in
          match r2 with
          | Raised err => (Raise (RemoteError err), s2)
          | Returned props =>
              (Ok tt, set_properties (<[unit_key := props]> (properties s2)) s2)
          end
        end
      end
    end.
Proof.
  unfold refresh_properties, bind, getRemoteObject, bind, attr, subscript,
    ret, raise, GetAll, perform.
  destruct (connection st); [|done].
  destruct (dget unit_key (units_path st)) as [p|]; [|done]. cbn [fst snd].
  destruct (env_getRemoteObject env busName p (world st)) as [[[]|err] w1];
    [|done]. cbn [world set_trace set_world].
  by destruct (env_GetAll env p w1) as [[props|err] w2].
Qed.

(** Two runs of the refresh loop from states that differ in [properties]
    only: same outcome, and the stores agree on every key fetched. *)
Lemma refresh_loop_cache (l : list string) (st : State W)
    (P1 P2 : gmap string PropertyMap) :
  ∃ r st' Q1 Q2,
    for_each l (refresh_properties env) (set_properties P1 st)
      = (r, set_properties Q1 st') ∧
    for_each l (refresh_properties env) (set_properties P2 st)
      = (r, set_properties Q2 st') ∧
    units_path st' = units_path st ∧
    (is_ok r → ∀ k, k ∈ l → Q1 !! k = Q2 !! k) ∧
    (∀ k, P1 !! k = P2 !! k → Q1 !! k = Q2 !! k).
Proof.
  revert st P1 P2. induction l as [|k0 l IH]; intros st P1 P2.
  - exists (Ok tt), st, P1, P2.
    split; [done|]. split; [done|]. split; [done|]. split; [|done].
    intros _ k Hk. inversion Hk.
  - pose proof (refresh_properties_unfold k0 (set_properties P1 st)) as U1.
    pose proof (refresh_properties_unfold k0 (set_properties P2 st)) as U2.
    cbn [connection units_path world trace set_properties] in U1, U2.
    cbn [for_each]. unfold bind.
    destruct (connection st).
    2:{ exists (Raise (AttributeError "getRemoteObject")), st, P1, P2.
        rewrite U1, U2.
        split; [done|]. split; [done|]. split; [done|]. split; [|done].
        intros []. }
    destruct (dget k0 (units_path st)) as [p|].
    2:{ exists (Raise (KeyError k0)), st, P1, P2. rewrite U1, U2.
        split; [done|]. split; [done|]. split; [done|]. split; [|done].
        intros []. }
    destruct (env_getRemoteObject env busName p (world st)) as [[[]|err] w1].
    2:{ exists (Raise (RemoteError err)),
          (set_trace (trace st ++ [(EGetRemoteObject busName p, Failed err)])
             (set_world w1 st)), P1, P2.
        rewrite U1, U2.
        split; [done|]. split; [done|]. split; [done|]. split; [|done].
        intros []. }
    cbn [world trace set_trace set_world status_of] in U1, U2.
    destruct (env_GetAll env p w1) as [[props|err] w2].
    2:{ exists (Raise (RemoteError err)),
          (set_trace ((trace st ++ [(EGetRemoteObject busName p, Done)]) ++
                      [(ECallRemote p "GetAll" [VStr ""], Failed err)])
             (set_world w2 st)), P1, P2.
        rewrite U1, U2.
        split; [done|]. split; [done|]. split; [done|]. split; [|done].
        intros []. }
    rewrite U1, U2.
    destruct (IH (set_trace ((trace st ++ [(EGetRemoteObject busName p, Done)]) ++
                             [(ECallRemote p "GetAll" [VStr ""], Done)])
                    (set_world w2 st))
                (<[k0 := props]> P1) (<[k0 := props]> P2))
      as (r & st' & Q1 & Q2 & E1 & E2 & Hp & Hin & Hout).
    exists r, st', Q1, Q2.
    split; [exact E1|]. split; [exact E2|]. split; [exact Hp|]. split.
    + intros Hok k Hk. destruct (decide (k ∈ l)) as [Hl|Hl]; [by apply Hin|].
      apply elem_of_cons in Hk. destruct Hk as [->|Hk]; [|done].
      apply Hout. by rewrite !lookup_insert_eq.
    + intros k Hk. apply Hout.
      destruct (decide (k0 = k)) as [->|Hne];
        [by rewrite !lookup_insert_eq | by rewrite !lookup_insert_ne].
Qed.

Lemma select_ext (unit_keys : list string) (Q1 Q2 : gmap string PropertyMap) :
  (∀ k, k ∈ unit_keys → Q1 !! k = Q2 !! k) →
  select unit_keys Q1 = select unit_keys Q2.
Proof.
  intros H. apply map_eq. intros k. rewrite !lookup_select.
  case_bool_decide; [by apply H | done].
Qed.

(** X5. [query] never answers from the cache.  Run from two states that
    differ only in the property maps kept in [properties], [query] ends the
    same way: it returns the same result or raises the same exception. *)
Theorem query_ignores_cache (unit_keys : list string) (st : State W)
    (P1 P2 : gmap string PropertyMap) :
  (query env unit_keys (set_properties P1 st)).1
  = (query env unit_keys (set_properties P2 st)).1.
Proof.
  unfold query, refresh_unit_properties, bind.
  cbn [units_path set_properties].
  set (keys := match unit_keys with [] => dkeys (units_path st) | _ => unit_keys end).
  assert (Hkeys : match keys with [] => dkeys (units_path st) | _ => keys end = keys).
  { subst keys. destruct unit_keys; [by destruct (dkeys (units_path st))|done]. }
  rewrite Hkeys.
  destruct (refresh_loop_cache keys st P1 P2)
    as (r & st' & Q1 & Q2 & -> & -> & _ & Hin & _).
  destruct r as [[]|e]; [|done]. simpl. f_equal. apply select_ext, Hin. done.
Qed.
End Query_results.

(** What [query('web')] returns on the running example. *)
Definition demo_answer : gmap string PropertyMap :=
  match (query demo_env ["web"] demo_started).1 with
  | Ok res => res
  | Raise _ => ∅
  end.

(** X4, on the running example. *)
Lemma query_result_witness :
  (∀ k, k ∈ ["web"] →
        is_Some (dget k (units_path demo_started)) ∧ is_Some (demo_answer !! k) ∧
        demo_answer !! k
        = properties (query demo_env ["web"] demo_started).2 !! k) ∧
  (∀ k, k ∉ ["web"] → demo_answer !! k = None) ∧
  units (query demo_env ["web"] demo_started).2 = units demo_started ∧
  units_path (query demo_env ["web"] demo_started).2 = units_path demo_started.
Proof.
  apply (query_result demo_env ["web"] demo_started
           (query demo_env ["web"] demo_started).2 demo_answer).
  apply (returns_eq (query demo_env ["web"]) demo_started ∅). by vm_compute.
Defined.

(** ** Sessions and signals *)

Section Sessions.
Context {W : Type}.
Variable env : Env W.

(** The six procedures, in the order [initialize] registers them. *)
Definition procedures : list string :=
  ["sjw.list_units"; "sjw.query"; "sjw.start"; "sjw.stop"; "sjw.enable";
   "sjw.disable"].

Lemma register_Ok session procedure (st st' : State W) :
  register env session procedure st = (Ok tt, st') →
  ∃ w', st' = set_trace (trace st ++ [(ERegister session procedure, Done)])
                (set_world w' st).
Proof.
  unfold register. intros H. apply perform_Ok in H as (w' & _ & ->). eauto.
Qed.

Lemma session_quiet session m :
  quiet (λ st : State W, wamp_session st = Some session ∧ mirror st = m).
Proof. split; intros ? st H; exact H. Qed.

(** X6. The join handler.  [initialize] keeps the session it is given,
    also when a registration fails, and leaves the mirror alone; when it
    returns, what it has added to the trace is the registration of the six
    procedures on that session, each completed, in the order of the
    source. *)
Theorem initialize_registers (session : nat) (st : State W) :
  wamp_session (initialize env session st).2 = Some session ∧
  mirror (initialize env session st).2 = mirror st ∧
  ((initialize env session st).1 = Ok tt →
   trace (initialize env session st).2
   = trace st ++ map (λ p, (ERegister session p, Done)) procedures).
Proof.
  pose proof (session_quiet session (mirror st)) as Hq.
  assert (Hkeep : keeps (λ s, wamp_session s = Some session ∧ mirror s = mirror st)
                    (register env session "sjw.list_units";;;
                     register env session "sjw.query";;;
                     register env session "sjw.start";;;
                     register env session "sjw.stop";;;
                     register env session "sjw.enable";;;
                     register env session "sjw.disable")).
  { unfold register.
    do 5 (apply keeps_bind; [by apply keeps_perform|]; intros _).
    by apply keeps_perform. }
  specialize (Hkeep (set_wamp_session (Some session) st) (conj eq_refl eq_refl)).
  change (initialize env session st)
    with ((register env session "sjw.list_units";;;
           register env session "sjw.query";;;
           register env session "sjw.start";;;
           register env session "sjw.stop";;;
           register env session "sjw.enable";;;
           register env session "sjw.disable")
            (set_wamp_session (Some session) st)).
  destruct Hkeep as [Hs Hm]. split; [exact Hs|]. split; [exact Hm|].
  destruct (bind _ _ (set_wamp_session (Some session) st)) as [r s6] eqn:E.
  cbn [fst snd]. intros ->.
  apply bind_inv_Ok in E as ([] & s1 & E1 & E).
  apply register_Ok in E1 as (w1 & ->).
  apply bind_inv_Ok in E as ([] & s2 & E2 & E).
  apply register_Ok in E2 as (w2 & ->).
  apply bind_inv_Ok in E as ([] & s3 & E3 & E).
  apply register_Ok in E3 as (w3 & ->).
  apply bind_inv_Ok in E as ([] & s4 & E4 & E).
  apply register_Ok in E4 as (w4 & ->).
  apply bind_inv_Ok in E as ([] & s5 & E5 & E).
  apply register_Ok in E5 as (w5 & ->).
  apply register_Ok in E as (w6 & ->).
  simpl. by rewrite <- !app_assoc.
Qed.

Lemma frame_quiet (u : gmap string Unit) (p : dict Value) :
  quiet (λ st : State W, units st = u ∧ units_path st = p).
Proof. split; intros ? st H; exact H. Qed.

(** X7. Only [refresh_units] writes [units] and [units_path].  A signal
    callback and a [query], however they end, leave the [Unit] tuples and
    the object paths as they were: what [list_units] shows of a unit changes
    only when [list_units] itself refreshes it. *)
Theorem signals_and_queries_frame (st : State W) :
  (∀ cb iface d inv,
     units (call env cb iface d inv st).2 = units st ∧
     units_path (call env cb iface d inv st).2 = units_path st) ∧
  (∀ unit_keys,
     units (query env unit_keys st).2 = units st ∧
     units_path (query env unit_keys st).2 = units_path st).
Proof.
  pose proof (frame_quiet (units st) (units_path st)) as Hq. split.
  - intros [cell] iface d inv. unfold call.
    destruct (cells st !! cell) as [[unit_key|]|]; [|done..].
    unfold unit_changed.
    apply (keeps_bind (λ s, units s = units st ∧ units_path s = units_path st));
      [by intros s Hs| |done].
    intros _ s Hs. unfold on_unit_changed.
    destruct (wamp_session s); [|done]. by apply keeps_perform.
  - intros unit_keys. unfold query.
    apply (keeps_bind (λ s, units s = units st ∧ units_path s = units_path st));
      [| by intros _ s Hs | done].
    intros s Hs. unfold refresh_unit_properties.
    apply keeps_for_each; [|done]. intros k _.
    apply keeps_refresh_properties; [done|]. by intros props s' Hs' _.
Qed.

(** X8. Signals while no session is kept.  With [wamp_session] unset (before
    the first join, after a leave), [unit_changed] still merges the delta
    into the stored properties, calls nothing outside, and returns. *)
Theorem unit_changed_detached (k iface : string) (d : PropertyMap)
    (inv : list string) (st : State W) :
  wamp_session st = None →
  unit_changed env k iface d inv st
  = (Ok tt,
     set_properties
       (<[k := d ∪ default ∅ (properties st !! k)]> (properties st)) st) ∧
  trace (unit_changed env k iface d inv (uninitialize st).2).2 = trace st.
Proof.
  intros Hs. unfold unit_changed, bind, on_unit_changed, uninitialize. simpl.
  by rewrite Hs.
Qed.
End Sessions.

(** X6, on the running example. *)
Lemma initialize_registers_witness :
  trace (initialize demo_env 7 (init demo_config)).2
  = trace (init demo_config) ++ map (λ p, (ERegister 7 p, Done)) procedures.
Proof.
  apply (initialize_registers demo_env 7 (init demo_config)). reflexivity.
Defined.

(** X8, on the running example. *)
Lemma unit_changed_detached_witness :
  unit_changed demo_env "web" "org.freedesktop.systemd1.Unit" demo_delta []
    (init demo_config)
  = (Ok tt,
     set_properties
       (<["web" := demo_delta ∪ default ∅ (properties (init demo_config) !! "web")]>
          (properties (init demo_config))) (init demo_config)) ∧
  trace (unit_changed demo_env "web" "org.freedesktop.systemd1.Unit" demo_delta []
           (uninitialize (init demo_config)).2).2 = trace (init demo_config).
Proof.
  apply (unit_changed_detached demo_env "web" "org.freedesktop.systemd1.Unit"
           demo_delta [] (init demo_config)).
  reflexivity.
Defined.

(** ** Registration of the callbacks *)

Section Registration.
Context {W : Type}.
Variable env : Env W.

(** What one turn of [subscribe_props_units] adds to the trace. *)
Definition registration (cell : nat) (entry : string * Value) : list Entry :=
  [(EGetRemoteObject busName entry.2, Done);
   (ENotifyOnSignal entry.2 "PropertiesChanged" (UnitChanged cell), Done)].

Lemma subscribe_loop_trace cell (l : list (string * Value)) (st st' : State W) :
  for_each l (λ '(unit_key, unit_path),
                subscribe_unit env cell unit_key unit_path) st = (Ok tt, st') →
  trace st' = trace st ++ flat_map (registration cell) l.
Proof.
  revert st. induction l as [|[k p] l IH]; intros st H; simpl in H.
  - injection H as <-. simpl. by rewrite app_nil_r.
  - apply bind_inv_Ok in H as ([] & st1 & H1 & H2).
    apply subscribe_unit_Ok in H1 as (T1 & _ & _).
    rewrite (IH _ H2), T1. simpl. by rewrite <- app_assoc.
Qed.

Lemma mirror_quiet m : quiet (λ st : State W, mirror st = m).
Proof. split; intros ? st H; exact H. Qed.

Lemma subscribe_props_units_mirror (st : State W) :
  mirror (subscribe_props_units env st).2 = mirror st.
Proof.
  unfold subscribe_props_units.
  apply (keeps_for_each (λ s, mirror s = mirror st)); [|done].
  intros [unit_key unit_path] _. unfold subscribe_unit.
  apply keeps_bind; [by intros s Hs|]. intros _.
  apply keeps_bind.
  { apply keeps_getRemoteObject; [apply mirror_quiet | apply keeps_ret]. }
  by intros unit_dbus s Hs.
Qed.

(** X9. One registration per tracked unit.  [subscribe_props_units],
    however it ends, leaves [units], [properties] and [units_path] as they
    were; when it returns it has fetched the proxy of, and registered one
    [PropertiesChanged] callback on, the object of every entry of
    [units_path], in the order of [units_path], and has called nothing
    else. *)
Theorem subscribe_props_units_registers (st : State W) :
  mirror (subscribe_props_units env st).2 = mirror st ∧
  ((subscribe_props_units env st).1 = Ok tt →
   trace (subscribe_props_units env st).2
   = trace st ++ flat_map (registration (length (cells st))) (units_path st)).
Proof.
  split; [apply subscribe_props_units_mirror|].
  destruct (subscribe_props_units env st) as [r st'] eqn:H. cbn [fst snd].
  intros ->. unfold subscribe_props_units in H.
  by apply subscribe_loop_trace in H.
Qed.

End Registration.

(** X9, on the running example. *)
Lemma subscribe_props_units_registers_witness :
  mirror (subscribe_props_units demo_env demo_started).2 = mirror demo_started ∧
  trace (subscribe_props_units demo_env demo_started).2
  = trace demo_started ++
    flat_map (registration (length (cells demo_started)))
      (units_path demo_started).
Proof.
  destruct (subscribe_props_units_registers demo_env demo_started) as [Hm Ht].
  split; [exact Hm|]. apply Ht. by vm_compute.
Defined.

(** ** Failures on the way *)

(** A bus on which every method call fails, and one whose units have no
    properties. *)
Definition down_env : Env unit :=
  {| env_connect := λ _ w, (Returned tt, w);
     env_getRemoteObject := λ _ _ w, (Returned tt, w);
     env_callRemote := λ _ _ _ w, (Raised "org.freedesktop.DBus.Error.NoReply", w);
     env_GetAll := λ _ w, (Raised "org.freedesktop.DBus.Error.NoReply", w);
     env_register := λ _ _ w, (Returned tt, w);
     env_publish := λ _ _ _ w, (Returned tt, w);
     env_wamp_start := λ w, (Returned (VStr "closed"), w) |}.

Definition bare_env : Env unit :=
  {| env_connect := λ _ w, (Returned tt, w);
     env_getRemoteObject := λ _ _ w, (Returned tt, w);
     env_callRemote := env_callRemote demo_env;
     env_GetAll := λ _ w, (Returned ∅, w);
     env_register := λ _ _ w, (Returned tt, w);
     env_publish := λ _ _ _ w, (Returned tt, w);
     env_wamp_start := λ w, (Returned (VStr "closed"), w) |}.

Section Failures.
Context {W : Type}.
Variable env : Env W.

Lemma file_call_fails member args (st : State W) obj err w1 :
  systemd_dbus st = Some obj →
  env_callRemote env obj member args (world st) = (Raised err, w1) →
  (let* result := systemd_call env member args in
   systemd_call env "Reload" [];;; ret result) st
  = (Raise (RemoteError err),
     set_trace (trace st ++ [(ECallRemote obj member args, Failed err)])
       (set_world w1 st)).
Proof.
  intros Hobj E. unfold bind, systemd_call, bind, attr, callRemote, perform.
  rewrite Hobj. cbn. by rewrite E.
Qed.

(** X11. No reload after a failed file call.  When [EnableUnitFiles] (resp.
    [DisableUnitFiles]) fails on the bus, [enable] (resp. [disable]) raises
    that failure and the failed call is the only one made: [Reload] is not
    called. *)
Theorem enable_disable_failure (k n : string) (obj : Value) (st : State W) :
  dget k (units_name st) = Some n →
  systemd_dbus st = Some obj →
  (∀ err w1,
     env_callRemote env obj "EnableUnitFiles"
       [VList [VStr n]; VBool false; VBool true] (world st) = (Raised err, w1) →
     enable env k st
     = (Raise (RemoteError err),
        set_trace (trace st ++
                   [(ECallRemote obj "EnableUnitFiles"
                       [VList [VStr n]; VBool false; VBool true], Failed err)])
          (set_world w1 st))) ∧
  (∀ err w1,
     env_callRemote env obj "DisableUnitFiles"
       [VList [VStr n]; VBool false] (world st) = (Raised err, w1) →
     disable env k st
     = (Raise (RemoteError err),
        set_trace (trace st ++
                   [(ECallRemote obj "DisableUnitFiles"
                       [VList [VStr n]; VBool false], Failed err)])
          (set_world w1 st))).
Proof.
  intros Hk Hobj.
  split; intros err w1 E; [unfold enable | unfold disable];
    rewrite (bind_Ok _ _ st n st) by (unfold subscript; by rewrite Hk);
    by apply file_call_fails.
Qed.

(** X12. Calls before the bus is there.  While [systemd_dbus] is still
    [None], [start], [stop], [enable] and [disable] on a configured key raise
    [AttributeError] and call nothing; [list_units] does the same as soon as
    the catalog has an entry. *)
Theorem calls_before_connect (k n : string) (st : State W) :
  systemd_dbus st = None →
  dget k (units_name st) = Some n →
  start env k st = (Raise (AttributeError "callRemote"), st) ∧
  stop env k st = (Raise (AttributeError "callRemote"), st) ∧
  enable env k st = (Raise (AttributeError "callRemote"), st) ∧
  disable env k st = (Raise (AttributeError "callRemote"), st) ∧
  (list_units env st).1 = Raise (AttributeError "callRemote") ∧
  trace (list_units env st).2 = trace st.
Proof.
  intros Hobj Hk.
  assert (Hcall : ∀ member args,
            systemd_call env member args st
            = (Raise (AttributeError "callRemote"), st)).
  { intros. unfold systemd_call, bind, attr, raise. by rewrite Hobj. }
  repeat split;
    try (unfold start, stop, enable, disable;
         rewrite (bind_Ok _ _ st n st) by (unfold subscript; by rewrite Hk);
         by rewrite (bind_Raise _ _ _ _ _ (Hcall _ _))).
  - unfold list_units, refresh_units, bind, items.
    destruct (units_name st) as [|[key un] l]; [done|]. cbn [for_each].
    unfold refresh_unit. cbn [in_filter].
    by rewrite (bind_Raise _ _ _ _ _
                  (bind_Raise _ _ _ _ _ (Hcall "LoadUnit" [VStr un]))).
  - unfold list_units, refresh_units, bind, items.
    destruct (units_name st) as [|[key un] l]; [done|]. cbn [for_each].
    unfold refresh_unit. cbn [in_filter].
    by rewrite (bind_Raise _ _ _ _ _
                  (bind_Raise _ _ _ _ _ (Hcall "LoadUnit" [VStr un]))).
Qed.
End Failures.

(** X11, on the running example with the failing bus. *)
Lemma enable_disable_failure_witness :
  enable down_env "web" demo_started
  = (Raise (RemoteError "org.freedesktop.DBus.Error.NoReply"),
     set_trace (trace demo_started ++
                [(ECallRemote systemd_path "EnableUnitFiles"
                    [VList [VStr "nginx.service"]; VBool false; VBool true],
                  Failed "org.freedesktop.DBus.Error.NoReply")])
       (set_world tt demo_started)) ∧
  disable down_env "web" demo_started
  = (Raise (RemoteError "org.freedesktop.DBus.Error.NoReply"),
     set_trace (trace demo_started ++
                [(ECallRemote systemd_path "DisableUnitFiles"
                    [VList [VStr "nginx.service"]; VBool false],
                  Failed "org.freedesktop.DBus.Error.NoReply")])
       (set_world tt demo_started)).
Proof.
  destruct (enable_disable_failure down_env "web" "nginx.service" systemd_path
              demo_started eq_refl eq_refl) as [He Hd].
  split; [apply (He _ tt eq_refl) | apply (Hd _ tt eq_refl)].
Defined.

(** X12, on the running example, in the state [App.__init__] leaves. *)
Lemma calls_before_connect_witness :
  start demo_env "web" (init demo_config)
    = (Raise (AttributeError "callRemote"), init demo_config) ∧
  stop demo_env "web" (init demo_config)
    = (Raise (AttributeError "callRemote"), init demo_config) ∧
  enable demo_env "web" (init demo_config)
    = (Raise (AttributeError "callRemote"), init demo_config) ∧
  disable demo_env "web" (init demo_config)
    = (Raise (AttributeError "callRemote"), init demo_config) ∧
  (list_units demo_env (init demo_config)).1
    = Raise (AttributeError "callRemote") ∧
  trace (list_units demo_env (init demo_config)).2 = trace (init demo_config).
Proof.
  apply (calls_before_connect demo_env "web" "nginx.service" (init demo_config));
    reflexivity.
Defined.

Section Partial.
Context {W : Type}.
Variable env : Env W.

(** The fields [Unit] is built from, in the order they are read. *)
Definition unit_fields : list string :=
  ["Description"; "ActiveState"; "SubState"; "UnitFileState"].

(** X13. A unit whose properties lack a field.  When the three bus calls of
    a turn of [refresh_units] succeed but the property map that [GetAll]
    returned lacks one of the four fields [Unit] reads, the turn raises
    [KeyError] for a field that is missing; by then the object path and the
    property map have been stored for the key, and [units] is as before. *)
Theorem refresh_unit_missing_field (key unit_name : string) (st : State W)
    (obj path : Value) (props : PropertyMap) (w1 w2 w3 : W) :
  systemd_dbus st = Some obj →
  is_Some (connection st) →
  env_callRemote env obj "LoadUnit" [VStr unit_name] (world st)
    = (Returned path, w1) →
  env_getRemoteObject env busName path w1 = (Returned tt, w2) →
  env_GetAll env path w2 = (Returned props, w3) →
  (∃ f, f ∈ unit_fields ∧ props !! f = None) →
  (∃ f, f ∈ unit_fields ∧ props !! f = None ∧
        (refresh_unit env key unit_name st).1 = Raise (KeyError f)) ∧
  units_path (refresh_unit env key unit_name st).2
    = dset key path (units_path st) ∧
  properties (refresh_unit env key unit_name st).2
    = <[key := props]> (properties st) ∧
  units (refresh_unit env key unit_name st).2 = units st.
Proof.
  intros Hobj [c Hc] E1 E2 E3 (f & Hf & Hnone).
  unfold refresh_unit, bind, systemd_call, bind, attr, callRemote,
    getRemoteObject, bind, attr, subscript, GetAll, perform, prop, subscript,
    ret, raise.
  rewrite Hobj. cbn. rewrite E1. cbn. rewrite Hc. cbn.
  rewrite dget_dset_eq. cbn. rewrite E2. cbn. rewrite E3. cbn.
  unfold unit_fields in *.
  destruct (props !! "Description") as [d|] eqn:Hd; cbn.
  2:{ split; [|done]. exists "Description". split; [|done].
      apply list_elem_of_here. }
  destruct (props !! "ActiveState") as [a|] eqn:Ha; cbn.
  2:{ split; [|done]. exists "ActiveState". split; [|done].
      apply list_elem_of_further, list_elem_of_here. }
  destruct (props !! "SubState") as [s|] eqn:Hs; cbn.
  2:{ split; [|done]. exists "SubState". split; [|done].
      do 2 apply list_elem_of_further. apply list_elem_of_here. }
  destruct (props !! "UnitFileState") as [e|] eqn:He; cbn.
  2:{ split; [|done]. exists "UnitFileState". split; [|done].
      do 3 apply list_elem_of_further. apply list_elem_of_here. }
  exfalso. rewrite !elem_of_cons in Hf.
  destruct Hf as [->|[->|[->|[->|Hf]]]]; try congruence. inversion Hf.
Qed.

Lemma frame_at_quiet k (u : option Unit) (p : option PropertyMap)
    (o : option Value) :
  quiet (λ st : State W, units st !! k = u ∧ properties st !! k = p ∧
                         dget k (units_path st) = o).
Proof. split; intros ? st H; exact H. Qed.

(** X14. A filtered refresh leaves the other keys alone.  With a non-empty
    [filter_keys], [refresh_units], however it ends, changes nothing that the
    mirror keeps for a key outside the filter. *)
Theorem refresh_units_filter_frame (filter_keys : list string) (k : string)
    (st : State W) :
  filter_keys ≠ [] →
  k ∉ filter_keys →
  units (refresh_units env (Some filter_keys) st).2 !! k = units st !! k ∧
  properties (refresh_units env (Some filter_keys) st).2 !! k
    = properties st !! k ∧
  dget k (units_path (refresh_units env (Some filter_keys) st).2)
    = dget k (units_path st).
Proof.
  intros Hne Hk.
  pose proof (frame_at_quiet k (units st !! k) (properties st !! k)
                (dget k (units_path st))) as Hq.
  unfold refresh_units.
  apply (keeps_for_each
           (λ s, units s !! k = units st !! k ∧
                 properties s !! k = properties st !! k ∧
                 dget k (units_path s) = dget k (units_path st))); [|done].
  intros [key unit_name] _.
  destruct filter_keys as [|k0 ks]; [done|]. cbn [in_filter].
  case_bool_decide as Hin; [|apply keeps_ret].
  assert (key ≠ k) by (intros ->; done).
  apply keeps_refresh_unit; [done|..]; intros ? s (Hu & Hp & Hd); simpl.
  - by rewrite dget_dset_ne.
  - by rewrite lookup_insert_ne.
  - by rewrite lookup_insert_ne.
Qed.

Lemma refresh_loop_order (l : list (string * string)) (st st' : State W) :
  for_each l (λ '(key, unit_name),
                if in_filter None key then refresh_unit env key unit_name
                else ret tt) st = (Ok tt, st') →
  NoDup l.*1 →
  (∀ k, k ∈ l.*1 → k ∉ dkeys (units_path st)) →
  dkeys (units_path st') = dkeys (units_path st) ++ l.*1.
Proof.
  revert st. induction l as [|[key un] l IH]; intros st H Hnd Hnew.
  - injection H as <-. simpl. by rewrite app_nil_r.
  - cbn [for_each] in H. apply bind_inv_Ok in H as ([] & s1 & H1 & H2).
    change (refresh_unit env key un st = (Ok tt, s1)) in H1.
    apply refresh_unit_stores in H1 as (path & props & u & Hp & _).
    rewrite fmap_cons in Hnd. apply NoDup_cons in Hnd as [Hfresh Hnd].
    simpl in Hfresh.
    assert (Hkey : dget key (units_path st) = None).
    { apply dget_None, Hnew. rewrite fmap_cons. apply list_elem_of_here. }
    assert (Hd : dkeys (units_path s1) = dkeys (units_path st) ++ [key]).
    { by rewrite Hp, dkeys_dset, Hkey. }
    rewrite (IH _ H2 Hnd), Hd, fmap_cons, <- app_assoc; [done|].
    intros k Hk. rewrite Hd, not_elem_of_app, not_elem_of_cons.
    split; [|split; [by intros ->|]].
    + apply Hnew. rewrite fmap_cons. by apply list_elem_of_further.
    + intros Hnil. inversion Hnil.
Qed.

(** X15. The first population fixes the order.  From an empty [units_path]
    and a catalog with distinct keys, a [refresh_units()] that returns
    leaves in [units_path] exactly the keys of [units_name], in the order of
    [units_name]: the order in which callbacks are then registered and in
    which [query()] without arguments fetches. *)
Theorem refresh_units_order (st st' : State W) :
  units_path st = [] →
  NoDup (dkeys (units_name st)) →
  refresh_units env None st = (Ok tt, st') →
  dkeys (units_path st') = dkeys (units_name st).
Proof.
  intros Hempty Hnd H. unfold refresh_units in H.
  rewrite (refresh_loop_order _ _ _ H Hnd), Hempty; [done|].
  intros k _. rewrite Hempty. intros Hnil. inversion Hnil.
Qed.
End Partial.

(** X13, on the running example with units that have no properties. *)
Lemma refresh_unit_missing_field_witness :
  (∃ f, f ∈ unit_fields ∧ (∅ : PropertyMap) !! f = None ∧
        (refresh_unit bare_env "web" "nginx.service" demo_connected).1
        = Raise (KeyError f)) ∧
  units_path (refresh_unit bare_env "web" "nginx.service" demo_connected).2
    = dset "web" (VStr "/unit/nginx.service") (units_path demo_connected) ∧
  properties (refresh_unit bare_env "web" "nginx.service" demo_connected).2
    = <["web" := ∅]> (properties demo_connected) ∧
  units (refresh_unit bare_env "web" "nginx.service" demo_connected).2
    = units demo_connected.
Proof.
  apply (refresh_unit_missing_field bare_env "web" "nginx.service"
           demo_connected systemd_path (VStr "/unit/nginx.service") ∅ tt tt tt).
  - reflexivity.
  - simpl. eauto.
  - reflexivity.
  - reflexivity.
  - reflexivity.
  - exists "Description". split; [apply list_elem_of_here | apply lookup_empty].
Defined.

(** X14, on the running example: refreshing ["web"] only. *)
Lemma refresh_units_filter_frame_witness :
  units (refresh_units demo_env (Some ["web"]) demo_started).2 !! "db"
    = units demo_started !! "db" ∧
  properties (refresh_units demo_env (Some ["web"]) demo_started).2 !! "db"
    = properties demo_started !! "db" ∧
  dget "db" (units_path (refresh_units demo_env (Some ["web"]) demo_started).2)
    = dget "db" (units_path demo_started).
Proof.
  apply (refresh_units_filter_frame demo_env ["web"] "db" demo_started).
  - discriminate.
  - intros H. apply list_elem_of_singleton in H. discriminate H.
Defined.

(** X15, on the running example. *)
Lemma refresh_units_order_witness :
  dkeys (units_path (refresh_units demo_env None demo_connected).2)
  = dkeys (units_name demo_connected).
Proof.
  apply (refresh_units_order demo_env demo_connected
           (refresh_units demo_env None demo_connected).2).
  - reflexivity.
  - compute_done.
  - apply returns_unit. by vm_compute.
Defined.

(** ** The bridge at work: later states *)

(** What the reactor makes the bridge do: start-up, the six remote
    procedures, the session handlers, and the delivery of a signal to a
    registered callback. *)
Inductive Op : Type :=
| Startup
| CallListUnits
| CallQuery (unit_keys : list string)
| CallStart (unit_key : string)
| CallStop (unit_key : string)
| CallEnable (unit_key : string)
| CallDisable (unit_key : string)
| Join (session : nat)
| Leave
| Signal (cb : Closure) (interface : string) (changed : PropertyMap)
         (invalidated : list string).

Section Later.
Context {W : Type}.
Variable env : Env W.

(** The state an operation leaves, however it ends. *)
Definition after (o : Op) (st : State W) : State W :=
  match o with
  | Startup => (main_loop env st).2
  | CallListUnits => (list_units env st).2
  | CallQuery unit_keys => (query env unit_keys st).2
  | CallStart k => (start env k st).2
  | CallStop k => (stop env k st).2
  | CallEnable k => (enable env k st).2
  | CallDisable k => (disable env k st).2
  | Join session => (initialize env session st).2
  | Leave => (uninitialize st).2
  | Signal cb interface changed invalidated =>
      (call env cb interface changed invalidated st).2
  end.

Definition after_all (os : list Op) (st : State W) : State W :=
  foldl (λ s o, after o s) st os.

(** An invariant that only assignments to [cells] can break, entries of
    [properties] being added or replaced but never removed. *)
Record steady (I : State W → Prop) : Prop := {
  steady_quiet : quiet I;
  steady_path : ∀ p st, I st → I (set_units_path p st);
  steady_props : ∀ key props st,
      I st → I (set_properties (<[key := props]> (properties st)) st);
  steady_units : ∀ u st, I st → I (set_units u st);
  steady_session : ∀ o st, I st → I (set_wamp_session o st);
  steady_connection : ∀ o st, I st → I (set_connection o st);
  steady_systemd : ∀ o st, I st → I (set_systemd_dbus o st)
}.

Section Steady.
Variable I : State W → Prop.
Hypothesis HI : steady I.

Lemma steady_refresh_units filter_keys : keeps I (refresh_units env filter_keys).
Proof.
  destruct HI. intros st Hst. unfold refresh_units.
  apply keeps_for_each; [|done]. intros [key unit_name] _.
  destruct (in_filter filter_keys key); [|apply keeps_ret].
  apply keeps_refresh_unit; [done|..]; intros ? s Hs; eauto.
Qed.

Lemma steady_refresh_unit_properties unit_keys :
  keeps I (refresh_unit_properties env unit_keys).
Proof.
  destruct HI. intros st Hst. unfold refresh_unit_properties.
  apply keeps_for_each; [|done]. intros k _.
  apply keeps_refresh_properties; [done|]. intros props s Hs _. eauto.
Qed.

Lemma steady_list_units : keeps I (list_units env).
Proof.
  unfold list_units. apply keeps_bind; [apply steady_refresh_units|].
  by intros _ st Hst.
Qed.

Lemma steady_query unit_keys : keeps I (query env unit_keys).
Proof.
  intros st Hst. unfold query.
  apply keeps_bind; [apply steady_refresh_unit_properties| |done].
  by intros _ s Hs.
Qed.

Lemma steady_lifecycle k :
  keeps I (start env k) ∧ keeps I (stop env k) ∧
  keeps I (enable env k) ∧ keeps I (disable env k).
Proof.
  destruct HI.
  split; [|split; [|split]]; unfold start, stop, enable, disable;
    (apply keeps_bind; [intros st Hst; by apply keeps_subscript|]); intros n;
    (apply keeps_bind; [by apply keeps_systemd_call|]); intros result;
    first [apply keeps_ret
          |apply keeps_bind; [by apply keeps_systemd_call|];
           intros _; apply keeps_ret].
Qed.

Lemma steady_on_unit_changed k d : keeps I (on_unit_changed env k d).
Proof.
  destruct HI. intros st Hst. unfold on_unit_changed.
  destruct (wamp_session st); [|done]. by apply keeps_perform.
Qed.

Lemma steady_call cb iface d inv : keeps I (call env cb iface d inv).
Proof.
  intros st Hst. destruct cb as [cell]. unfold call.
  destruct (cells st !! cell) as [[unit_key|]|]; [|done..].
  unfold unit_changed.
  apply keeps_bind; [| intros _; apply steady_on_unit_changed | done].
  apply keeps_update. intros s Hs. by apply (steady_props I HI).
Qed.

Lemma steady_initialize session : keeps I (initialize env session).
Proof.
  destruct HI. unfold initialize, register.
  apply keeps_bind; [intros st Hst; eauto|]. intros _.
  do 5 (apply keeps_bind; [by apply keeps_perform|]; intros _).
  by apply keeps_perform.
Qed.

Lemma steady_uninitialize : keeps I (uninitialize (W:=W)).
Proof. destruct HI. intros st Hst. unfold uninitialize. simpl. eauto. Qed.

Lemma steady_setup : keeps I (setup env).
Proof.
  destruct HI. unfold setup, connect.
  apply keeps_bind; [by apply keeps_perform|]. intros _.
  apply keeps_bind; [intros st Hst; eauto|]. intros _.
  apply keeps_bind.
  { apply keeps_getRemoteObject; [done | apply keeps_ret]. }
  intros obj.
  apply keeps_bind; [intros st Hst; eauto|]. intros _.
  by apply keeps_systemd_call.
Qed.

Lemma steady_populate : keeps I (populate env).
Proof.
  unfold populate. apply keeps_bind; [apply steady_refresh_units|]. intros _.
  apply steady_refresh_unit_properties.
Qed.

(** Start-up, given that the registration of the callbacks keeps [I]. *)
Lemma steady_main_loop :
  keeps I (subscribe_props_units env) → keeps I (main_loop env).
Proof.
  intros Hsub st Hst. rewrite main_loop_stages.
  apply keeps_bind; [apply steady_setup| |done]. intros _.
  apply keeps_bind; [apply steady_populate|]. intros _.
  apply keeps_bind; [apply Hsub|]. intros _.
  apply keeps_bind; [|intros r; apply keeps_ret].
  unfold wamp_start. apply keeps_perform. by destruct HI.
Qed.

(** Every operation but start-up keeps [I]. *)
Lemma steady_after o st :
  (∀ s, I s → I (main_loop env s).2) → I st → I (after o st).
Proof.
  intros Hstart Hst. destruct o; simpl.
  - by apply Hstart.
  - by apply steady_list_units.
  - by apply steady_query.
  - by apply (steady_lifecycle unit_key).
  - by apply (steady_lifecycle unit_key).
  - by apply (steady_lifecycle unit_key).
  - by apply (steady_lifecycle unit_key).
  - by apply steady_initialize.
  - by apply steady_uninitialize.
  - by apply steady_call.
Qed.

Lemma steady_after_all os st :
  (∀ s, I s → I (main_loop env s).2) → I st → I (after_all os st).
Proof.
  intros Hstart. revert st. induction os as [|o os IH]; intros st Hst; [done|].
  simpl. apply IH. by apply steady_after.
Qed.
End Steady.
End Later.

Section Callbacks.
Context {W : Type}.
Variable env : Env W.

(** The cell [cell] holds the key [k]. *)
Definition holds (cell : nat) (k : string) (st : State W) : Prop :=
  cells st !! cell = Some (Some k).

Lemma holds_steady cell k : steady (holds cell k).
Proof. split; [split|..]; intros; assumption. Qed.

(** A later run of [subscribe_props_units] has a cell of its own. *)
Lemma holds_subscribe_props_units cell k :
  keeps (holds cell k) (subscribe_props_units env).
Proof.
  intros st H. unfold subscribe_props_units.
  assert (Hlt : cell < length (cells st)) by by apply lookup_lt_Some in H.
  apply keeps_for_each.
  - intros [unit_key unit_path] _. unfold subscribe_unit.
    apply keeps_bind.
    { apply keeps_update. intros s Hs. unfold holds in *. simpl.
      rewrite list_lookup_insert_ne by lia. done. }
    intros _. apply keeps_bind.
    { apply keeps_getRemoteObject; [apply (holds_steady cell k)|apply keeps_ret]. }
    by intros unit_dbus s Hs.
  - unfold holds in *. simpl. by rewrite lookup_app_l.
Qed.

Lemma holds_main_loop cell k st :
  holds cell k st → holds cell k (main_loop env st).2.
Proof.
  apply (steady_main_loop env _ (holds_steady cell k)).
  apply holds_subscribe_props_units.
Qed.

(** X10. Every callback acts on the last key.  After
    [subscribe_props_units] has returned, the callback registered on the
    object of any entry of [units_path] does, whenever it is called later
    (after any sequence of procedure calls, session events, signals and
    start-ups), what [unit_changed] does for the key of the last entry that
    [units_path] had: the closures share the loop variable, which holds
    that key from then on. *)
Theorem callbacks_act_on_last_key (st st' : State W) k_last p_last :
  subscribe_props_units env st = (Ok tt, st') →
  last (units_path st) = Some (k_last, p_last) →
  ∀ k p, (k, p) ∈ units_path st →
    ∃ cb, (ENotifyOnSignal p "PropertiesChanged" cb, Done) ∈ trace st' ∧
          ∀ os iface d inv,
            call env cb iface d inv (after_all env os st')
            = unit_changed env k_last iface d inv (after_all env os st').
Proof.
  intros H Hlast k p Hin.
  destruct (subscribe_props_units_Ok env _ _ H) as (t & T & Hreg & Hcell & _).
  exists (UnitChanged (length (cells st))). split.
  - rewrite T. apply elem_of_app. right. by apply (Hreg k p).
  - intros os iface d inv.
    pose proof (steady_after_all env _ (holds_steady (length (cells st)) k_last)
                  os st' (holds_main_loop _ _) (Hcell _ _ Hlast)) as Hheld.
    unfold call. unfold holds in Hheld. by rewrite Hheld.
Qed.

(** Every key a callback reads has a property map. *)
Definition callbacks_populated (st : State W) : Prop :=
  ∀ cell k, cells st !! cell = Some (Some k) → is_Some (properties st !! k).

Lemma callbacks_populated_steady : steady callbacks_populated.
Proof.
  split; [split|..]; intros; try assumption.
  intros cell k Hk. simpl. rewrite lookup_insert_is_Some.
  destruct (decide (key = k)); [by left | right; eauto].
Qed.

Lemma callbacks_populated_subscribe (st : State W) :
  callbacks_populated st →
  (∀ k, is_Some (dget k (units_path st)) → is_Some (properties st !! k)) →
  callbacks_populated (subscribe_props_units env st).2.
Proof.
  intros HP HT. unfold subscribe_props_units.
  apply (keeps_for_each
           (λ s, callbacks_populated s ∧ properties s = properties st)).
  - intros [unit_key unit_path] Hin. unfold subscribe_unit, items in *.
    apply elem_of_catalog, HT in Hin.
    apply keeps_bind.
    { apply keeps_update. intros s [Hs Hp]. split; [|done].
      intros cell k Hk. simpl in *.
      apply list_lookup_insert_Some in Hk as [(_ & [= ->] & _)|[_ Hk]];
        [by rewrite Hp | by apply (Hs cell)]. }
    intros _. apply keeps_bind.
    { apply keeps_getRemoteObject; [|apply keeps_ret].
      split; intros ? s Hs; exact Hs. }
    by intros unit_dbus s Hs.
  - split; [|done]. intros cell k Hk. simpl in Hk.
    apply lookup_app_Some in Hk as [Hk|[_ Hk]]; [by apply (HP cell)|].
    by destruct (cell - length (cells st)) as [|[|n]].
Qed.

Lemma catalogued_setup N : keeps (catalogued N) (setup env).
Proof.
  pose proof (catalogued_quiet (W:=W) N) as Hq. unfold setup, connect.
  apply keeps_bind; [by apply keeps_perform|]. intros _.
  apply keeps_bind; [intros st Hst; exact Hst|]. intros _.
  apply keeps_bind.
  { apply keeps_getRemoteObject; [done | apply keeps_ret]. }
  intros obj.
  apply keeps_bind; [intros st Hst; exact Hst|]. intros _.
  by apply keeps_systemd_call.
Qed.

Lemma catalogued_populate N : keeps (catalogued N) (populate env).
Proof.
  unfold populate. apply keeps_bind; [apply catalogued_refresh_units|].
  intros _. apply catalogued_refresh_unit_properties.
Qed.

(** The two invariants together. *)
Definition sound (N : dict string) (st : State W) : Prop :=
  catalogued N st ∧ callbacks_populated st.

Lemma populate_tracked N (st st' : State W) :
  catalogued N st → populate env st = (Ok tt, st') →
  ∀ k, is_Some (dget k (units_path st')) → is_Some (properties st' !! k).
Proof.
  intros HC H k Hk.
  pose proof (catalogued_populate N st HC) as HC'. rewrite H in HC'.
  destruct HC' as [HN' (Hpath & _)]. simpl in HN', Hpath.
  apply Hpath in Hk. rewrite HN' in Hk. apply dget_is_Some in Hk.
  unfold populate in H. apply bind_inv_Ok in H as ([] & s1 & H1 & H2).
  unfold refresh_units in H1. destruct HC as [HN _]. rewrite HN in H1.
  pose proof (refresh_loop_populated env _ _ _ H1 k Hk) as P.
  pose proof (populated_refresh_unit_properties env k None s1 P) as P2.
  rewrite H2 in P2. by destruct P2 as (_ & ? & _).
Qed.

Lemma sound_main_loop N : keeps (sound N) (main_loop env).
Proof.
  intros st [HC HP]. rewrite main_loop_stages. unfold bind.
  pose proof (catalogued_setup N st HC) as C1.
  pose proof (steady_setup env _ callbacks_populated_steady st HP) as P1.
  destruct (setup env st) as [[v|e] s1]; [|done]. simpl in C1, P1.
  pose proof (catalogued_populate N s1 C1) as C2.
  pose proof (steady_populate env _ callbacks_populated_steady s1 P1) as P2.
  pose proof (populate_tracked N s1) as T2.
  destruct (populate env s1) as [[[]|e] s2]; [|done]. simpl in C2, P2.
  specialize (T2 s2 C1 eq_refl).
  pose proof (catalogued_subscribe_props_units env N s2 C2) as C3.
  pose proof (callbacks_populated_subscribe s2 P2 T2) as P3.
  destruct (subscribe_props_units env s2) as [[[]|e] s3]; [|done].
  simpl in C3, P3. unfold wamp_start, perform, ret.
  by destruct (env_wamp_start env (world s3)) as [[r|err] w'].
Qed.

Lemma sound_after N o st : sound N st → sound N (after env o st).
Proof.
  intros Hs. destruct o; simpl; [by apply sound_main_loop|..];
    destruct Hs as [HC HP]; split.
  - by apply catalogued_list_units.
  - by apply (steady_list_units env _ callbacks_populated_steady).
  - by apply catalogued_query.
  - by apply (steady_query env _ callbacks_populated_steady).
  - by apply (catalogued_lifecycle env N unit_key).
  - by apply (steady_lifecycle env _ callbacks_populated_steady unit_key).
  - by apply (catalogued_lifecycle env N unit_key).
  - by apply (steady_lifecycle env _ callbacks_populated_steady unit_key).
  - by apply (catalogued_lifecycle env N unit_key).
  - by apply (steady_lifecycle env _ callbacks_populated_steady unit_key).
  - by apply (catalogued_lifecycle env N unit_key).
  - by apply (steady_lifecycle env _ callbacks_populated_steady unit_key).
  - destruct (catalogued_sessions env N session) as [Hi _]. by apply Hi.
  - by apply (steady_initialize env _ callbacks_populated_steady).
  - done.
  - done.
  - by apply catalogued_call.
  - by apply (steady_call env _ callbacks_populated_steady).
Qed.

(** X16. No signal finds its key without properties.  From a state whose
    mirror is inside the catalog and in which every key a callback reads has
    a property map (the state [App.__init__] leaves is one: it has no
    callback), every later state is such a state again: start-up registers
    callbacks only for keys it has just populated, and no entry of
    [properties] is ever removed. *)
Theorem callbacks_have_properties (st : State W) (os : list Op) :
  within_catalog st → callbacks_populated st →
  ∀ cell k, cells (after_all env os st) !! cell = Some (Some k) →
            is_Some (properties (after_all env os st) !! k).
Proof.
  intros HC HP.
  assert (Hs : sound (units_name st) st) by done.
  revert Hs. generalize (units_name st) as N. revert st HC HP.
  induction os as [|o os IH]; intros st _ _ N Hs; [by destruct Hs|].
  simpl. pose proof (sound_after N o st Hs) as Hs'.
  destruct Hs' as [[HN HC'] HP']. apply (IH _ HC' HP' N). done.
Qed.
End Callbacks.

(** X10, on the running example: the callback on the object of ["web"],
    called after a query and a leave. *)
Lemma callbacks_act_on_last_key_witness :
  ∃ cb,
    (ENotifyOnSignal (VStr "/unit/nginx.service") "PropertiesChanged" cb, Done)
      ∈ trace (subscribe_props_units demo_env demo_started).2 ∧
    ∀ os iface d inv,
      call demo_env cb iface d inv
        (after_all demo_env os (subscribe_props_units demo_env demo_started).2)
      = unit_changed demo_env "db" iface d inv
          (after_all demo_env os (subscribe_props_units demo_env demo_started).2).
Proof.
  apply (callbacks_act_on_last_key demo_env demo_started
           (subscribe_props_units demo_env demo_started).2
           "db" (VStr "/unit/postgresql.service")
           (returns_unit (subscribe_props_units demo_env) demo_started eq_refl)
           eq_refl "web" (VStr "/unit/nginx.service")).
  apply list_elem_of_here.
Defined.

Lemma init_callbacks_populated config_units :
  callbacks_populated (init config_units).
Proof. intros cell k H. simpl in H. by rewrite lookup_nil in H. Qed.

(** A run of the running example: start-up, a join, a signal, a query. *)
Definition demo_run : list Op :=
  [Startup; Join 7;
   Signal (UnitChanged 0) "org.freedesktop.systemd1.Unit" demo_delta [];
   CallQuery []].

(** X16, on the running example. *)
Lemma callbacks_have_properties_witness :
  cells (after_all demo_env demo_run (init demo_config)) !! 0 = Some (Some "db") ∧
  is_Some (properties (after_all demo_env demo_run (init demo_config)) !! "db").
Proof.
  assert (H : cells (after_all demo_env demo_run (init demo_config)) !! 0
              = Some (Some "db")) by by vm_compute.
  split; [exact H|].
  exact (callbacks_have_properties demo_env (init demo_config) demo_run
           (init_within_catalog demo_config)
           (init_callbacks_populated demo_config) 0 "db" H).
Defined.

(** ** Start-up: the order of the stages *)

Section Stages.
Context {W : Type}.
Variable env : Env W.
















End Stages.

Section Startup_order.
Context {W : Type}.
Variable env : Env W.

End Startup_order.

